(** * pose_detection.py: the capture / estimate / draw / display loop

    A shallow embedding of [src/pose_detection.py].  The script talks to
    three external collaborators (the OpenCV camera and window, the MediaPipe
    pose estimator and the MediaPipe drawing utility).  Every call to one of
    them is recorded as an [event] in a trace, its answer is supplied by the
    environment, and the numpy arrays the script passes around live in an
    object store so that in-place drawing and aliasing are visible. *)

From stdpp Require Import base gmap strings list.
From Stdlib Require Import ZArith QArith Lia.

Local Open Scope Z_scope.

(** ** Data model *)

(** One pixel: three 8-bit channels, in the order the array stores them. *)
Definition Pixel : Type := (Byte.byte * Byte.byte * Byte.byte)%type.

(** A frame is a grid of pixels (rows of pixels). *)
Definition Frame : Type := list (list Pixel).

(** A landmark: normalised coordinates and a visibility score. *)
Record Landmark : Type := mkLandmark {
  lm_x : Q;
  lm_y : Q;
  lm_z : Q;
  lm_visibility : Q
}.

Definition Landmarks : Type := list Landmark.

(** The identity of a numpy array object. *)
Abbreviation ref := nat (only parsing).

(** Keyword arguments of [mp_pose.Pose(...)]. *)
Record PoseConfig : Type := mkPoseConfig {
  static_image_mode : bool;
  model_complexity : Z;
  min_detection_confidence : Q;
  min_tracking_confidence : Q
}.

(** OpenCV's numeric constants used by the script. *)
Definition CAP_V4L2 : Z := 200.
Definition CAP_PROP_FRAME_WIDTH : Z := 3.
Definition CAP_PROP_FRAME_HEIGHT : Z := 4.
Definition COLOR_BGR2RGB : Z := 4.

(** Calls to the external collaborators, with arguments and answers. *)
Inductive event : Type :=
| Pose_init (cfg : PoseConfig)
| Print (msg : string)
| VideoCapture (index : Z) (api : Z)
| IsOpened (answer : bool)
| CapSet (prop : Z) (value : Z)
| CapRead (success : bool) (frame : option (ref * Frame))
| CvtColor (src : ref) (code : Z) (dst : ref)
| PoseProcess (img : ref) (pixels : Frame) (answer : option Landmarks)
| DrawLandmarks (img : ref) (lms : Landmarks) (connections : gset (nat * nat))
| Imshow (winname : string) (img : ref) (pixels : Frame)
| WaitKey (delay : Z) (answer : Z)
| CapRelease
| DestroyAllWindows.

(** The interpreter state: the array store, the next fresh array identity
    and the calls made so far (oldest first). *)
Record World : Type := mkWorld {
  heap : gmap nat Frame;
  next_ref : ref;
  trace : list event
}.

Definition initial_world : World :=
  {| heap := ∅; next_ref := 0%nat; trace := [] |}.

(** ** The monad of the script: state, plus [SystemExit] *)

Inductive res (A : Type) : Type :=
| Val (a : A)
| SystemExit (code : option Z).
Arguments Val {A} a.
Arguments SystemExit {A} code.

Definition M (A : Type) : Type := World → res A * World.

Definition ret {A : Type} (a : A) : M A := λ w, (Val a, w).

Definition bind {A B : Type} (m : M A) (k : A → M B) : M B := λ w,
  match m w with
  | (Val a, w') => k a w'
  | (SystemExit c, w') => (SystemExit c, w')
  end.

Declare Scope M_scope.
Delimit Scope M_scope with M.
Bind Scope M_scope with M.
Notation "x ← y ; z" := (bind y (λ x, z))
  (at level 20, y at level 100, z at level 200, only parsing) : M_scope.
Notation "' x ← y ; z" := (bind y (λ x, z))
  (at level 20, x pattern, y at level 100, z at level 200, only parsing) : M_scope.
Notation "x ;; z" := (bind x (λ _, z))
  (at level 100, z at level 200, only parsing, right associativity) : M_scope.
Local Open Scope M_scope.

Definition emit (e : event) : M unit := λ w,
  (Val tt, {| heap := heap w; next_ref := next_ref w; trace := trace w ++ [e] |}).

(** A new array object holding [px]. *)
Definition alloc (px : Frame) : M ref := λ w,
  (Val (next_ref w),
   {| heap := <[next_ref w := px]> (heap w);
      next_ref := S (next_ref w);
      trace := trace w |}).

(** The pixels of an array object (an unknown object reads as empty). *)
Definition load (r : ref) : M Frame := λ w,
  (Val (default [] (heap w !! r)), w).

(** In-place update of an array object. *)
Definition store (r : ref) (px : Frame) : M unit := λ w,
  (Val tt, {| heap := <[r := px]> (heap w); next_ref := next_ref w; trace := trace w |}).

(** [sys.exit(arg)] raises [SystemExit(arg)]. *)
Definition sys_exit {A : Type} (arg : option Z) : M A := λ w, (SystemExit arg, w).

(** The process status of an uncaught [SystemExit(arg)]: no argument (None)
    means status zero. *)
Definition exit_status (arg : option Z) : Z :=
  match arg with
  | None => 0
  | Some n => n
  end.

(** ** The external collaborators *)

(** What the MediaPipe drawing module provides: the joint connectivity graph
    and the effect of [draw_landmarks] on the pixels of the image it is
    given. *)
Class Drawing : Type := mkDrawing {
  POSE_CONNECTIONS : gset (nat * nat);
  draw_pixels : Frame → Landmarks → gset (nat * nat) → Frame
}.

(** What the environment answers during one pass through the loop: each
    field is the answer the corresponding call gets if the pass makes it. *)
Record Iter : Type := mkIter {
  cam_open : bool;
  read_result : bool * option Frame;
  detection : option Landmarks;
  key : Z
}.

(** The environment of a run: whether the device opened, and the answers for
    the passes through the loop that are observed. *)
Record Env : Type := mkEnv {
  open_ok : bool;
  iters : list Iter
}.

Definition print (msg : string) : M unit := emit (Print msg).

Definition Pose (cfg : PoseConfig) : M unit := emit (Pose_init cfg).

Definition cv2_VideoCapture (index api : Z) : M unit := emit (VideoCapture index api).

Definition cap_isOpened (answer : bool) : M bool :=
  emit (IsOpened answer) ;; ret answer.

Definition cap_set (prop value : Z) : M unit := emit (CapSet prop value).

(** [cap.read()]: a frame that is delivered is a fresh array object. *)
Definition cap_read (answer : bool * option Frame) : M (bool * option ref) :=
  match answer.2 with
  | Some px =>
      r ← alloc px ;
      emit (CapRead answer.1 (Some (r, px))) ;;
      ret (answer.1, Some r)
  | None =>
      emit (CapRead answer.1 None) ;;
      ret (answer.1, None)
  end.

(** Channel reordering of one pixel: first and last channel swapped. *)
Definition swap_rb (p : Pixel) : Pixel :=
  match p with
  | (c0, c1, c2) => (c2, c1, c0)
  end.

(** The pixel transformation of [cv2.cvtColor] for a conversion code.  Only
    [COLOR_BGR2RGB] occurs in the script; other codes are not modelled and
    leave the pixels as they are. *)
Definition cvt_pixels (code : Z) (px : Frame) : Frame :=
  if code =? COLOR_BGR2RGB then map (map swap_rb) px else px.

(** [cv2.cvtColor(src, code)]: the result is a new array, the source array
    is only read. *)
Definition cv2_cvtColor (src : ref) (code : Z) : M ref :=
  px ← load src ;
  dst ← alloc (cvt_pixels code px) ;
  emit (CvtColor src code dst) ;;
  ret dst.

(** [pose.process(img)]: the estimator is a black box, its answer is the
    environment's. *)
Definition pose_process (img : ref) (answer : option Landmarks) : M (option Landmarks) :=
  px ← load img ;
  emit (PoseProcess img px answer) ;;
  ret answer.

(** [mp_drawing.draw_landmarks(image, landmark_list, connections)] draws in
    place on [image]. *)
Definition draw_landmarks `{Drawing} (img : ref) (lms : Landmarks)
    (connections : gset (nat * nat)) : M unit :=
  px ← load img ;
  store img (draw_pixels px lms connections) ;;
  emit (DrawLandmarks img lms connections).

Definition cv2_imshow (winname : string) (img : ref) : M unit :=
  px ← load img ;
  emit (Imshow winname img px).

Definition cv2_waitKey (delay : Z) (answer : Z) : M Z :=
  emit (WaitKey delay answer) ;; ret answer.

Definition cap_release : M unit := emit CapRelease.

Definition cv2_destroyAllWindows : M unit := emit DestroyAllWindows.

(** ** The script *)

Definition pose_config : PoseConfig :=
  {| static_image_mode := false;
     model_complexity := 0;
     min_detection_confidence := 0.5;
     min_tracking_confidence := 0.5 |}.

(** How one pass through the loop body ends. *)
Inductive ctl : Type :=
| Next    (* [continue], or the end of the body *)
| Break.  (* [break] *)

(** The body of [while cap.isOpened():]. *)
Definition loop_body `{Drawing} (it : Iter) : M ctl :=
  '(success, frame) ← cap_read (read_result it) ;
  match success, frame with
  | true, Some frame =>
      img_rgb ← cv2_cvtColor frame COLOR_BGR2RGB ;
      results ← pose_process img_rgb (detection it) ;
      match results with
      | Some pose_landmarks =>
          draw_landmarks frame pose_landmarks POSE_CONNECTIONS
      | None => ret tt
      end ;;
      cv2_imshow "MediaPipe Pose IMX708" frame ;;
      k ← cv2_waitKey 1 (key it) ;
      if Z.land k 0xFF =? 27 then ret Break else ret Next
  | _, _ => ret Next  (* [not success or frame is None]: [continue] *)
  end.

(** How the observation of the loop ends. *)
Inductive loop_end : Type :=
| StillLooping  (* the observed passes are used up, the loop is still running *)
| LoopExited.   (* the loop condition was false, or [break] *)

(** [while cap.isOpened(): body], observed for the passes of [its]. *)
Fixpoint while_loop `{Drawing} (its : list Iter) : M loop_end :=
  match its with
  | [] => ret StillLooping
  | it :: rest =>
      opened ← cap_isOpened (cam_open it) ;
      if opened then
        c ← loop_body it ;
        match c with
        | Next => while_loop rest
        | Break => ret LoopExited
        end
      else ret LoopExited
  end.

(** The whole script, top to bottom. *)
Definition script `{Drawing} (env : Env) : M loop_end :=
  Pose pose_config ;;
  print "Iniciando cámara IMX708..." ;;
  cv2_VideoCapture 0 CAP_V4L2 ;;
  opened ← cap_isOpened (open_ok env) ;
  (if negb opened then
     print "Error: No se pudo acceder a la cámara." ;;
     sys_exit None
   else ret tt) ;;
  cap_set CAP_PROP_FRAME_WIDTH 640 ;;
  cap_set CAP_PROP_FRAME_HEIGHT 480 ;;
  print "Cámara configurada. Iniciando procesamiento..." ;;
  print "Presiona ESC para salir." ;;
  e ← while_loop (iters env) ;
  match e with
  | StillLooping => ret StillLooping
  | LoopExited =>
      cap_release ;;
      cv2_destroyAllWindows ;;
      ret LoopExited
  end.

(** The two states of the process. *)
Inductive status : Type :=
| RUNNING
| TERMINATED (code : Z).

(** Running the script from a fresh interpreter: falling off the end of the
    file is exit status zero, an uncaught [SystemExit] gives its status. *)
Definition run `{Drawing} (env : Env) : status * World :=
  match script env initial_world with
  | (Val StillLooping, w) => (RUNNING, w)
  | (Val LoopExited, w) => (TERMINATED 0, w)
  | (SystemExit arg, w) => (TERMINATED (exit_status arg), w)
  end.

(** ** Vocabulary for the statements *)

(** The read of a pass succeeded and delivered a frame. *)
Definition valid_read (it : Iter) : bool :=
  match read_result it with
  | (true, Some _) => true
  | _ => false
  end.

(** The test the script applies to the value returned by the key poll. *)
Definition is_escape (k : Z) : bool := Z.land k 0xFF =? 27.

(** A pass after which the loop does not go on: the loop condition is false
    at its head, or it reaches the key poll and the poll passes the test. *)
Definition stops (it : Iter) : bool :=
  negb (cam_open it) || (valid_read it && is_escape (key it)).

(** The passes whose body is entered. *)
Fixpoint executed (its : list Iter) : list Iter :=
  match its with
  | [] => []
  | it :: rest =>
      if cam_open it then
        it :: (if valid_read it && is_escape (key it) then [] else executed rest)
      else []
  end.

Definition is_process (e : event) : bool :=
  match e with PoseProcess _ _ _ => true | _ => false end.

Definition is_read (e : event) : bool :=
  match e with CapRead _ _ => true | _ => false end.

Definition is_imshow (e : event) : bool :=
  match e with Imshow _ _ _ => true | _ => false end.

Definition is_waitkey (e : event) : bool :=
  match e with WaitKey _ _ => true | _ => false end.

Definition is_cleanup (e : event) : bool :=
  match e with CapRelease | DestroyAllWindows => true | _ => false end.

Definition is_isOpened (e : event) : bool :=
  match e with IsOpened _ => true | _ => false end.

(** Number of elements of a list that pass a test. *)
Fixpoint count {A : Type} (p : A → bool) (l : list A) : nat :=
  match l with
  | [] => 0%nat
  | x :: l' => ((if p x then 1 else 0) + count p l')%nat
  end.

(** The world after a computation, and its trace. *)
Definition world_after {A : Type} (m : M A) (w : World) : World := (m w).2.

Definition trace_after {A : Type} (m : M A) (w : World) : list event :=
  trace (world_after m w).

(** Sample data for the concrete runs. *)
Definition sample_frame : Frame :=
  [[(Byte.x0a, Byte.x14, Byte.x1e); (Byte.x28, Byte.x32, Byte.x3c)]].

Definition sample_landmarks : Landmarks :=
  [mkLandmark 0.5 0.25 0 1; mkLandmark 0.5 0.75 0 1].

(** A stand-in for the drawing module: one edge between the two sample
    joints, and a drawing routine that paints the first pixel of every
    row white. *)
Definition sample_draw (px : Frame) (lms : Landmarks) (cs : gset (nat * nat)) : Frame :=
  map (λ row, match row with
              | [] => []
              | _ :: row' => (Byte.xff, Byte.xff, Byte.xff) :: row'
              end) px.

Definition sample_drawing : Drawing :=
  {| POSE_CONNECTIONS := {[ (0%nat, 1%nat) ]}; draw_pixels := sample_draw |}.

Definition failed_pass : Iter :=
  {| cam_open := true; read_result := (false, None); detection := None; key := 27 |}.

Definition good_pass (lms : option Landmarks) (k : Z) : Iter :=
  {| cam_open := true; read_result := (true, Some sample_frame); detection := lms; key := k |}.

(** The pixels shown by a pass with a valid read of [f]. *)
Definition shown_pixels `{Drawing} (f : Frame) (lms : option Landmarks) : Frame :=
  match lms with
  | Some lm => draw_pixels f lm POSE_CONNECTIONS
  | None => f
  end.

(** The calls of a pass with a valid read of [f], when the frame becomes
    array [r] (the converted copy is then array [S r]). *)
Definition valid_pass_events `{Drawing} (r : ref) (f : Frame) (it : Iter) : list event :=
  [CapRead true (Some (r, f));
   CvtColor r COLOR_BGR2RGB (S r);
   PoseProcess (S r) (cvt_pixels COLOR_BGR2RGB f) (detection it)]
  ++ match detection it with
     | Some lm => [DrawLandmarks r lm POSE_CONNECTIONS]
     | None => []
     end
  ++ [Imshow "MediaPipe Pose IMX708" r (shown_pixels f (detection it));
      WaitKey 1 (key it)].

(** The calls of any pass whose body is entered with [r] the next fresh
    array identity. *)
Definition pass_events `{Drawing} (r : ref) (it : Iter) : list event :=
  match read_result it with
  | (true, Some f) => valid_pass_events r f it
  | (s, Some f) => [CapRead s (Some (r, f))]
  | (s, None) => [CapRead s None]
  end.

(** The calls made before the loop when the device opened, and the world in
    which the loop is entered. *)
Definition startup_events : list event :=
  [Pose_init pose_config;
   Print "Iniciando cámara IMX708...";
   VideoCapture 0 CAP_V4L2;
   IsOpened true;
   CapSet CAP_PROP_FRAME_WIDTH 640;
   CapSet CAP_PROP_FRAME_HEIGHT 480;
   Print "Cámara configurada. Iniciando procesamiento...";
   Print "Presiona ESC para salir."].

Definition loop_entry : World :=
  {| heap := ∅; next_ref := 0%nat; trace := startup_events |}.

(** The calls made when the device did not open. *)
Definition open_failure_events : list event :=
  [Pose_init pose_config;
   Print "Iniciando cámara IMX708...";
   VideoCapture 0 CAP_V4L2;
   IsOpened false;
   Print "Error: No se pudo acceder a la cámara."].

(** The world [w] with the calls [evs] appended to its trace. *)
Definition with_events (w : World) (evs : list event) : World :=
  {| heap := heap w; next_ref := next_ref w; trace := trace w ++ evs |}.

(** A run in which the device does not open. *)
Definition failing_env : Env := {| open_ok := false; iters := [failed_pass] |}.

(** One hundred failed reads, then one successful read. *)
Definition scenario_env : Env :=
  {| open_ok := true;
     iters := replicate 100 failed_pass ++ [good_pass (Some sample_landmarks) (-1)] |}.

(** A failed read, a pass with no key pressed, then a pass at which the poll
    returns 27; one more pass would be available. *)
Definition escape_env : Env :=
  {| open_ok := true;
     iters := [failed_pass; good_pass None (-1); good_pass (Some sample_landmarks) 27;
               good_pass None (-1)] |}.

(** Only failed reads, with the poll ready to answer 27 at each pass. *)
Definition failing_reads_env : Env :=
  {| open_ok := true; iters := replicate 5 failed_pass |}.

(** ** Vocabulary for whole runs *)

Definition is_print (e : event) : bool :=
  match e with Print _ => true | _ => false end.

Definition is_pose_init (e : event) : bool :=
  match e with Pose_init _ => true | _ => false end.

Definition is_videocapture (e : event) : bool :=
  match e with VideoCapture _ _ => true | _ => false end.

Definition is_capset (e : event) : bool :=
  match e with CapSet _ _ => true | _ => false end.

Definition is_open_true (e : event) : bool :=
  match e with IsOpened true => true | _ => false end.

(** The pixels an estimator call was given, and the pixels a display call
    showed. *)
Definition processed_pixels (e : event) : list Frame :=
  match e with PoseProcess _ px _ => [px] | _ => [] end.

Definition displayed_pixels (e : event) : list Frame :=
  match e with Imshow _ _ px => [px] | _ => [] end.

(** The frame a pass delivers to the rest of the body, if any. *)
Definition valid_frame (it : Iter) : list Frame :=
  match read_result it with
  | (true, Some f) => [f]
  | _ => []
  end.

(** The arguments the script fixes once and for all: the window name, the
    poll delay, the conversion code and the connectivity graph. *)
Definition uniform_call `{Drawing} (e : event) : Prop :=
  match e with
  | Imshow winname _ _ => winname = "MediaPipe Pose IMX708"
  | WaitKey delay _ => delay = 1
  | CvtColor _ code _ => code = COLOR_BGR2RGB
  | DrawLandmarks _ _ connections => connections = POSE_CONNECTIONS
  | _ => True
  end.

(** Every read in [l] comes right after a check of the handle that answered
    true; [prev] tells whether the call before [l] was such a check. *)
Fixpoint reads_guarded (prev : bool) (l : list event) : bool :=
  match l with
  | [] => true
  | e :: l' => (if is_read e then prev else true) && reads_guarded (is_open_true e) l'
  end.

(** Whether the last call of [l] is a check that answered true ([prev] if
    [l] is empty). *)
Definition ends_open (prev : bool) (l : list event) : bool :=
  match last l with
  | Some e => is_open_true e
  | None => prev
  end.

(** A run in which the handle reports closed at the head of the third pass. *)
Definition closing_env : Env :=
  {| open_ok := true;
     iters := [good_pass (Some sample_landmarks) (-1); failed_pass;
               {| cam_open := false; read_result := (true, Some sample_frame);
                  detection := None; key := -1 |};
               good_pass None (-1)] |}.

(** Two different frames for runs that read more than one. *)
Definition other_frame : Frame :=
  [[(Byte.x01, Byte.x02, Byte.x03); (Byte.x04, Byte.x05, Byte.x06)]].

Definition two_frames_env : Env :=
  {| open_ok := true;
     iters := [good_pass (Some sample_landmarks) (-1);
               failed_pass;
               {| cam_open := true; read_result := (true, None);
                  detection := None; key := -1 |};
               {| cam_open := true; read_result := (true, Some other_frame);
                  detection := None; key := -1 |}] |}.

(** Unfolding the calls of the script down to the state they act on. *)
Ltac run_prims :=
  unfold draw_landmarks, cv2_imshow, cv2_waitKey, cv2_cvtColor, pose_process,
    cap_read, cap_isOpened, cap_set, cap_release, cv2_destroyAllWindows,
    cv2_VideoCapture, Pose, print, sys_exit,
    bind, alloc, load, store, emit, ret;
  simpl.

(** Reading the store after the writes of a pass. *)
Ltac heap_lookups :=
  repeat (rewrite lookup_insert_eq || (rewrite lookup_insert_ne by lia); simpl).

(** ** Basic facts *)

Lemma count_app {A : Type} (p : A → bool) (l1 l2 : list A) :
  count p (l1 ++ l2) = (count p l1 + count p l2)%nat.
Proof.
  induction l1 as [|x l1 IH]; simpl; [reflexivity|].
  rewrite IH. lia.
Qed.

Section Loop.
Context `{D : Drawing}.

(** A pass with a valid read of [f]: how it ends, the calls it makes, and
    the contents of the two arrays afterwards. *)
Lemma loop_body_valid (it : Iter) (w : World) (f : Frame) :
  read_result it = (true, Some f) →
  (loop_body it w).1 = Val (if is_escape (key it) then Break else Next)
  ∧ trace_after (loop_body it) w = trace w ++ valid_pass_events (next_ref w) f it
  ∧ heap (world_after (loop_body it) w) !! next_ref w
      = Some (shown_pixels f (detection it))
  ∧ heap (world_after (loop_body it) w) !! S (next_ref w)
      = Some (cvt_pixels COLOR_BGR2RGB f).
Proof.
  intros Hr.
  unfold trace_after, world_after, loop_body, valid_pass_events, is_escape.
  run_prims. rewrite Hr. simpl.
  destruct (detection it) as [lm|]; run_prims; heap_lookups;
    destruct (Z.land (key it) 255 =? 27); simpl; heap_lookups;
    rewrite <- !app_assoc; simpl; auto.
Qed.

(** Any pass: how it ends and the calls it makes. *)
Lemma loop_body_spec (it : Iter) (w : World) :
  (loop_body it w).1
    = Val (if valid_read it && is_escape (key it) then Break else Next)
  ∧ trace_after (loop_body it) w = trace w ++ pass_events (next_ref w) it.
Proof.
  unfold valid_read, pass_events.
  destruct (read_result it) as [s fr] eqn:Hr.
  destruct s, fr as [f|].
  - destruct (loop_body_valid it w f Hr) as (H1 & H2 & _). simpl. auto.
  - unfold trace_after, world_after, loop_body. run_prims. rewrite Hr. simpl. auto.
  - unfold trace_after, world_after, loop_body. run_prims. rewrite Hr. simpl. auto.
  - unfold trace_after, world_after, loop_body. run_prims. rewrite Hr. simpl. auto.
Qed.

Lemma while_loop_closed (it : Iter) (rest : list Iter) (w : World) :
  cam_open it = false →
  while_loop (it :: rest) w = (Val LoopExited, with_events w [IsOpened false]).
Proof. intros Hc. simpl. run_prims. rewrite Hc. reflexivity. Qed.

(** One pass with the camera open: either the loop is left in the world
    the pass produced, or the remaining passes run from that world. *)
Lemma while_loop_open (it : Iter) (rest : list Iter) (w : World) :
  cam_open it = true →
  while_loop (it :: rest) w =
    let w' := world_after (loop_body it) (with_events w [IsOpened true]) in
    if valid_read it && is_escape (key it)
    then (Val LoopExited, w')
    else while_loop rest w'.
Proof.
  intros Hc. simpl.
  destruct (loop_body_spec it (with_events w [IsOpened true])) as [Hres _].
  unfold world_after.
  unfold bind at 1. unfold cap_isOpened at 1. unfold bind at 1. unfold emit, ret.
  rewrite Hc. unfold bind at 1. fold (with_events w [IsOpened true]).
  destruct (loop_body it (with_events w [IsOpened true])) as [r w'].
  simpl in Hres. subst r.
  destruct (valid_read it && is_escape (key it)); reflexivity.
Qed.

Lemma trace_after_pass (it : Iter) (w : World) :
  trace_after (loop_body it) (with_events w [IsOpened true])
    = trace w ++ IsOpened true :: pass_events (next_ref w) it.
Proof.
  destruct (loop_body_spec it (with_events w [IsOpened true])) as [_ Htr].
  rewrite Htr. simpl. rewrite <- app_assoc. reflexivity.
Qed.

(** Passes that do not stop the loop can be split off. *)
Lemma while_loop_app (pre rest : list Iter) (w : World) :
  Forall (λ it, stops it = false) pre →
  while_loop (pre ++ rest) w = while_loop rest (world_after (while_loop pre) w).
Proof.
  intros Hpre. revert w.
  induction Hpre as [|it pre Hit _ IH]; intros w; [reflexivity|].
  unfold stops in Hit. apply orb_false_iff in Hit as [Hopen Hesc].
  apply negb_false_iff in Hopen.
  rewrite <- app_comm_cons.
  rewrite (while_loop_open it (pre ++ rest) w Hopen).
  unfold world_after at 2.
  rewrite (while_loop_open it pre w Hopen).
  simpl. rewrite Hesc. apply IH.
Qed.

Lemma while_loop_running (pre : list Iter) (w : World) :
  Forall (λ it, stops it = false) pre →
  (while_loop pre w).1 = Val StillLooping.
Proof.
  intros Hpre. revert w.
  induction Hpre as [|it pre Hit _ IH]; intros w; [reflexivity|].
  unfold stops in Hit. apply orb_false_iff in Hit as [Hopen Hesc].
  apply negb_false_iff in Hopen.
  rewrite (while_loop_open it pre w Hopen). simpl. rewrite Hesc. apply IH.
Qed.

(** The loop never raises [SystemExit]. *)
Lemma while_loop_no_exit (its : list Iter) (w : World) :
  ∃ e, (while_loop its w).1 = Val e.
Proof.
  revert w. induction its as [|it rest IH]; intros w.
  - exists StillLooping. reflexivity.
  - destruct (cam_open it) eqn:Hopen.
    + rewrite (while_loop_open it rest w Hopen). simpl.
      destruct (valid_read it && is_escape (key it)); [|apply IH].
      exists LoopExited. reflexivity.
    + rewrite (while_loop_closed it rest w Hopen).
      exists LoopExited. reflexivity.
Qed.

(** Counting the calls of one kind made by the loop: the count of a pass
    may depend on the pass but not on the array identities. *)
Lemma while_loop_count (p : event → bool) (g : Iter → nat) :
  (∀ r it, count p (pass_events r it) = g it) →
  (∀ b, p (IsOpened b) = false) →
  ∀ (its : list Iter) (w : World),
    count p (trace_after (while_loop its) w)
      = (count p (trace w) + sum_list_with g (executed its))%nat.
Proof.
  intros Hpass Hhead its.
  induction its as [|it rest IH]; intros w.
  - unfold trace_after, world_after. simpl. lia.
  - simpl executed. destruct (cam_open it) eqn:Hopen.
    + unfold trace_after, world_after.
      rewrite (while_loop_open it rest w Hopen). simpl.
      destruct (valid_read it && is_escape (key it)); simpl.
      * fold (world_after (loop_body it) (with_events w [IsOpened true])).
        fold (trace_after (loop_body it) (with_events w [IsOpened true])).
        rewrite trace_after_pass, count_app. simpl.
        rewrite Hhead, Hpass. lia.
      * fold (world_after (while_loop rest)
                (world_after (loop_body it) (with_events w [IsOpened true]))).
        fold (trace_after (while_loop rest)
                (world_after (loop_body it) (with_events w [IsOpened true]))).
        rewrite IH.
        fold (trace_after (loop_body it) (with_events w [IsOpened true])).
        rewrite trace_after_pass, count_app. simpl.
        rewrite Hhead, Hpass. lia.
    + unfold trace_after, world_after.
      rewrite (while_loop_closed it rest w Hopen). simpl.
      rewrite count_app. simpl. rewrite Hhead. lia.
Qed.

(** The loop only ever adds calls to the trace. *)
Lemma while_loop_extends (its : list Iter) (w : World) :
  ∃ evs, trace_after (while_loop its) w = trace w ++ evs.
Proof.
  revert w. induction its as [|it rest IH]; intros w.
  - exists []. unfold trace_after, world_after. simpl. rewrite app_nil_r. reflexivity.
  - destruct (cam_open it) eqn:Hopen.
    + unfold trace_after, world_after.
      rewrite (while_loop_open it rest w Hopen). simpl.
      destruct (valid_read it && is_escape (key it)).
      * simpl. eexists. apply trace_after_pass.
      * destruct (IH (world_after (loop_body it) (with_events w [IsOpened true])))
          as [evs Hevs].
        unfold trace_after in Hevs at 1. unfold world_after in Hevs at 1.
        rewrite Hevs.
        fold (trace_after (loop_body it) (with_events w [IsOpened true])).
        rewrite trace_after_pass. rewrite <- app_assoc. eexists. reflexivity.
    + unfold trace_after, world_after.
      rewrite (while_loop_closed it rest w Hopen). simpl. eexists. reflexivity.
Qed.

(** The script when the device does not open. *)
Lemma run_open_failure (env : Env) :
  open_ok env = false →
  run env = (TERMINATED 0,
             {| heap := ∅; next_ref := 0%nat; trace := open_failure_events |}).
Proof.
  intros Hopen. unfold run, script. run_prims. rewrite Hopen. reflexivity.
Qed.

(** The script when the device opens: the loop runs from [loop_entry], and
    the two final calls follow once the loop is left. *)
Lemma run_opened (env : Env) :
  open_ok env = true →
  run env =
    match while_loop (iters env) loop_entry with
    | (Val StillLooping, w) => (RUNNING, w)
    | (Val LoopExited, w) =>
        (TERMINATED 0, with_events w [CapRelease; DestroyAllWindows])
    | (SystemExit arg, w) => (TERMINATED (exit_status arg), w)
    end.
Proof.
  intros Hopen. unfold run, script. run_prims. rewrite Hopen. simpl.
  unfold loop_entry, startup_events.
  destruct (while_loop (iters env) _) as [[[|]|c] w]; simpl;
    try reflexivity.
  unfold with_events. rewrite <- app_assoc. reflexivity.
Qed.

(** What a pass contributes to the counts, whatever the array identity. *)
Lemma pass_count_process (r : ref) (it : Iter) :
  count is_process (pass_events r it) = if valid_read it then 1%nat else 0%nat.
Proof.
  unfold pass_events, valid_read, valid_pass_events.
  destruct (read_result it) as [[] [f|]]; destruct (detection it); reflexivity.
Qed.

Lemma pass_count_imshow (r : ref) (it : Iter) :
  count is_imshow (pass_events r it) = if valid_read it then 1%nat else 0%nat.
Proof.
  unfold pass_events, valid_read, valid_pass_events.
  destruct (read_result it) as [[] [f|]]; destruct (detection it); reflexivity.
Qed.

Lemma pass_count_waitkey (r : ref) (it : Iter) :
  count is_waitkey (pass_events r it) = if valid_read it then 1%nat else 0%nat.
Proof.
  unfold pass_events, valid_read, valid_pass_events.
  destruct (read_result it) as [[] [f|]]; destruct (detection it); reflexivity.
Qed.

Lemma pass_count_read (r : ref) (it : Iter) :
  count is_read (pass_events r it) = 1%nat.
Proof.
  unfold pass_events, valid_pass_events.
  destruct (read_result it) as [[] [f|]]; destruct (detection it); reflexivity.
Qed.

Lemma pass_count_cleanup (r : ref) (it : Iter) :
  count is_cleanup (pass_events r it) = 0%nat.
Proof.
  unfold pass_events, valid_pass_events.
  destruct (read_result it) as [[] [f|]]; destruct (detection it); reflexivity.
Qed.

Lemma executed_app (pre rest : list Iter) :
  Forall (λ it, stops it = false) pre →
  executed (pre ++ rest) = pre ++ executed rest.
Proof.
  induction 1 as [|it pre Hit _ IH]; [reflexivity|].
  unfold stops in Hit. apply orb_false_iff in Hit as [Hopen Hesc].
  apply negb_false_iff in Hopen.
  simpl. rewrite Hopen, Hesc, IH. reflexivity.
Qed.

Lemma sum_list_with_indicator (p : Iter → bool) (l : list Iter) :
  sum_list_with (λ it, if p it then 1%nat else 0%nat) l = count p l.
Proof. induction l as [|x l IH]; simpl; [reflexivity | rewrite IH; reflexivity]. Qed.

Lemma sum_list_with_zero (l : list Iter) :
  sum_list_with (λ _, 0%nat) l = 0%nat.
Proof. induction l as [|x l IH]; simpl; [reflexivity | exact IH]. Qed.

Lemma sum_list_with_one (l : list Iter) :
  sum_list_with (λ _, 1%nat) l = length l.
Proof. induction l as [|x l IH]; simpl; [reflexivity | rewrite IH; reflexivity]. Qed.

(** The last observed pass, or the pass at which the loop is left. *)
Lemma while_loop_escape (it : Iter) (rest : list Iter) (w : World) :
  cam_open it = true → valid_read it = true → is_escape (key it) = true →
  while_loop (it :: rest) w
    = (Val LoopExited, world_after (loop_body it) (with_events w [IsOpened true])).
Proof.
  intros Hopen Hvalid Hesc.
  rewrite (while_loop_open it rest w Hopen). simpl.
  rewrite Hvalid, Hesc. reflexivity.
Qed.

(** The two ways a run with an open device can stand: still looping, or
    out of the loop with the two final calls made. *)
Lemma run_opened_cases (env : Env) :
  open_ok env = true →
  ((while_loop (iters env) loop_entry).1 = Val StillLooping
   ∧ run env = (RUNNING, world_after (while_loop (iters env)) loop_entry))
  ∨ ((while_loop (iters env) loop_entry).1 = Val LoopExited
     ∧ run env = (TERMINATED 0,
                  with_events (world_after (while_loop (iters env)) loop_entry)
                    [CapRelease; DestroyAllWindows])).
Proof.
  intros Hopen. rewrite (run_opened env Hopen).
  destruct (while_loop_no_exit (iters env) loop_entry) as [e He].
  unfold world_after.
  destruct (while_loop (iters env) loop_entry) as [r w]. simpl in *.
  subst r. destruct e; [left | right]; split; reflexivity.
Qed.

(** Counting calls of one kind, other than the two final calls, over a
    whole run with an open device. *)
Lemma run_count (p : event → bool) (g : Iter → nat) (env : Env) :
  (∀ r it, count p (pass_events r it) = g it) →
  (∀ b, p (IsOpened b) = false) →
  p CapRelease = false → p DestroyAllWindows = false →
  open_ok env = true →
  count p (trace (run env).2)
    = (count p startup_events + sum_list_with g (executed (iters env)))%nat.
Proof.
  intros Hpass Hhead Hrel Hdestroy Hopen.
  pose proof (while_loop_count p g Hpass Hhead (iters env) loop_entry) as Hc.
  destruct (run_opened_cases env Hopen) as [[_ Hrun] | [_ Hrun]];
    rewrite Hrun; simpl.
  - exact Hc.
  - rewrite count_app. simpl. rewrite Hrel, Hdestroy.
    fold (trace_after (while_loop (iters env)) loop_entry). rewrite Hc.
    simpl. lia.
Qed.

End Loop.

(** ** The estimator is called exactly on valid reads *)

(** C1.  Every pass through the loop calls the pose estimator exactly when
    the read succeeded and delivered a frame: a pass adds one estimator call
    to the trace in that case and none otherwise; a pass whose read is not
    valid makes the read call only and goes straight on to the next pass;
    over a whole run the number of estimator calls is the number of entered
    passes with a valid read.  In particular, after one hundred failed reads
    followed by one successful read of [f], the estimator has been called
    exactly once, on the converted copy of [f], and one hundred reads come
    before the read that delivers [f]. *)
Theorem estimator_called_exactly_on_valid_reads `{Drawing} :
  (∀ (it : Iter) (w : World),
     count is_process (trace_after (loop_body it) w)
       = (count is_process (trace w) + (if valid_read it then 1 else 0))%nat)
  ∧ (∀ (it : Iter) (rest : list Iter) (w : World),
       cam_open it = true → valid_read it = false →
       ∃ w' fr,
         while_loop (it :: rest) w = while_loop rest w'
         ∧ trace w' = trace w ++ [IsOpened true; CapRead (read_result it).1 fr])
  ∧ (∀ env : Env,
       open_ok env = true →
       count is_process (trace (run env).2)
         = count valid_read (executed (iters env)))
  ∧ (∀ (env : Env) (fails : list Iter) (ok : Iter) (f : Frame),
       open_ok env = true →
       iters env = fails ++ [ok] →
       length fails = 100%nat →
       Forall (λ it, cam_open it = true ∧ (read_result it).1 = false) fails →
       cam_open ok = true →
       read_result ok = (true, Some f) →
       count is_process (trace (run env).2) = 1%nat
       ∧ ∃ (before after : list event) (r : ref),
           trace (run env).2
             = before
               ++ [CapRead true (Some (r, f));
                   CvtColor r COLOR_BGR2RGB (S r);
                   PoseProcess (S r) (cvt_pixels COLOR_BGR2RGB f) (detection ok)]
               ++ after
           ∧ count is_read before = 100%nat
           ∧ count is_process before = 0%nat).
Proof.
  split; [|split; [|split]].
  - intros it w.
    destruct (loop_body_spec it w) as [_ Htr].
    rewrite Htr, count_app, pass_count_process. reflexivity.
  - intros it rest w Hopen Hvalid.
    rewrite (while_loop_open it rest w Hopen). simpl. rewrite Hvalid. simpl.
    eexists. exists (match (read_result it).2 with
                     | Some f => Some (next_ref w, f)
                     | None => None
                     end).
    split; [reflexivity|].
    fold (trace_after (loop_body it) (with_events w [IsOpened true])).
    rewrite trace_after_pass.
    unfold pass_events. unfold valid_read in Hvalid.
    destruct (read_result it) as [[] [fr|]]; simpl; try discriminate; reflexivity.
  - intros env Hopen.
    rewrite (run_count is_process (λ it, if valid_read it then 1%nat else 0%nat) env);
      try reflexivity; try assumption.
    + simpl. apply sum_list_with_indicator.
    + intros r it. apply pass_count_process.
  - intros env fails ok f Hopen Hits Hlen Hfails Hcam Hread.
    assert (Hgo : Forall (λ it, stops it = false) fails).
    { eapply Forall_impl; [exact Hfails|].
      intros it [Hc Hr]. unfold stops, valid_read. rewrite Hc.
      destruct (read_result it) as [s fr]. simpl in Hr. subst s. reflexivity. }
    assert (Hnone : count valid_read fails = 0%nat).
    { clear -Hfails. induction Hfails as [|it l [_ Hr] _ IH]; [reflexivity|].
      simpl. rewrite IH. unfold valid_read.
      destruct (read_result it) as [s fr]. simpl in Hr. subst s. reflexivity. }
    assert (Hok : valid_read ok = true) by (unfold valid_read; rewrite Hread; reflexivity).
    assert (Hex : executed (iters env) = fails ++ [ok]).
    { rewrite Hits, (executed_app fails [ok] Hgo). simpl. rewrite Hcam.
      destruct (valid_read ok && is_escape (key ok)); reflexivity. }
    split.
    + rewrite (run_count is_process (λ it, if valid_read it then 1%nat else 0%nat) env);
        try reflexivity; try assumption; [|intros r it; apply pass_count_process].
      rewrite sum_list_with_indicator, Hex, count_app, Hnone. simpl.
      rewrite Hok. reflexivity.
    + set (w1 := world_after (while_loop fails) loop_entry).
      assert (Hlast : ∃ tail,
                 trace (run env).2
                   = (trace w1 ++ IsOpened true :: pass_events (next_ref w1) ok) ++ tail).
      { destruct (run_opened_cases env Hopen) as [[_ Hrun] | [_ Hrun]];
          rewrite Hrun; unfold world_after at 1; cbn [fst snd trace with_events];
          rewrite Hits, (while_loop_app fails [ok] loop_entry Hgo);
          fold w1; rewrite (while_loop_open ok [] w1 Hcam); simpl;
          destruct (valid_read ok && is_escape (key ok)); simpl;
          fold (trace_after (loop_body ok) (with_events w1 [IsOpened true]));
          rewrite trace_after_pass.
        - exists []. rewrite app_nil_r. reflexivity.
        - exists []. rewrite app_nil_r. reflexivity.
        - eexists. reflexivity.
        - eexists. reflexivity. }
      destruct Hlast as [tail Htail].
      unfold pass_events in Htail. rewrite Hread in Htail.
      unfold valid_pass_events in Htail.
      exists (trace w1 ++ [IsOpened true]).
      eexists. exists (next_ref w1).
      split; [|split].
      * rewrite Htail. rewrite <- !app_assoc. simpl. reflexivity.
      * rewrite count_app. simpl. unfold w1.
        fold (trace_after (while_loop fails) loop_entry).
        rewrite (while_loop_count is_read (λ _, 1%nat));
          [|intros; apply pass_count_read | reflexivity].
        rewrite <- (app_nil_r fails) at 1.
        rewrite (executed_app fails [] Hgo), app_nil_r, sum_list_with_one, Hlen.
        reflexivity.
      * rewrite count_app. simpl. unfold w1.
        fold (trace_after (while_loop fails) loop_entry).
        rewrite (while_loop_count is_process (λ it, if valid_read it then 1%nat else 0%nat));
          [|intros; apply pass_count_process | reflexivity].
        rewrite <- (app_nil_r fails) at 1.
        rewrite (executed_app fails [] Hgo), app_nil_r, sum_list_with_indicator, Hnone.
        reflexivity.
Qed.

Lemma estimator_called_exactly_on_valid_reads_witness :
  open_ok scenario_env = true
  ∧ length (replicate 100 failed_pass) = 100%nat
  ∧ count is_process (trace (@run sample_drawing scenario_env).2) = 1%nat
  ∧ ∃ (before after : list event) (r : ref),
      trace (@run sample_drawing scenario_env).2
        = before
          ++ [CapRead true (Some (r, sample_frame));
              CvtColor r COLOR_BGR2RGB (S r);
              PoseProcess (S r) (cvt_pixels COLOR_BGR2RGB sample_frame)
                (Some sample_landmarks)]
          ++ after
      ∧ count is_read before = 100%nat
      ∧ count is_process before = 0%nat.
Proof.
  split; [reflexivity|]. split; [reflexivity|].
  destruct (@estimator_called_exactly_on_valid_reads sample_drawing)
    as (_ & _ & _ & Hscenario).
  apply (Hscenario scenario_env (replicate 100 failed_pass)
           (good_pass (Some sample_landmarks) (-1)) sample_frame);
    try reflexivity.
  apply Forall_replicate. split; reflexivity.
Defined.

(** ** Exit status *)

(** C2, as amended.  When the loop is left through the key poll (the passes
    before did not stop the loop, the pass reaches the poll, and the poll's
    answer passes the Escape test) the process ends with status 0.  When the
    device does not open, the process ends through [sys.exit()] called with
    no argument, which is status 0 as well, and the diagnostic message is
    the last thing it does before exiting. *)
Theorem exit_status_is_zero_on_both_paths `{Drawing} (env : Env) :
  (∀ (pre post : list Iter) (it : Iter),
     open_ok env = true →
     iters env = pre ++ it :: post →
     Forall (λ p, stops p = false) pre →
     cam_open it = true → valid_read it = true → is_escape (key it) = true →
     (run env).1 = TERMINATED 0)
  ∧ (open_ok env = false →
     (run env).1 = TERMINATED (exit_status None)
     ∧ exit_status None = 0
     ∧ ∃ before,
         trace (run env).2
           = before ++ [Print "Error: No se pudo acceder a la cámara."]).
Proof.
  split.
  - intros pre post it Hopen Hits Hpre Hcam Hvalid Hesc.
    destruct (run_opened_cases env Hopen) as [[Hres _] | [_ Hrun]].
    + rewrite Hits, (while_loop_app pre (it :: post) loop_entry Hpre) in Hres.
      rewrite (while_loop_escape it post _ Hcam Hvalid Hesc) in Hres.
      discriminate.
    + rewrite Hrun. reflexivity.
  - intros Hopen. rewrite (run_open_failure env Hopen). simpl.
    split; [reflexivity|]. split; [reflexivity|].
    exists [Pose_init pose_config; Print "Iniciando cámara IMX708...";
            VideoCapture 0 CAP_V4L2; IsOpened false].
    reflexivity.
Qed.

Lemma exit_status_is_zero_on_both_paths_witness :
  (@run sample_drawing escape_env).1 = TERMINATED 0
  ∧ (open_ok failing_env = false
     ∧ (@run sample_drawing failing_env).1 = TERMINATED 0).
Proof.
  split.
  - apply (proj1 (@exit_status_is_zero_on_both_paths sample_drawing escape_env)
             [failed_pass; good_pass None (-1)] [good_pass None (-1)]
             (good_pass (Some sample_landmarks) 27));
      try reflexivity.
    repeat constructor.
  - split; [reflexivity|].
    apply (proj2 (@exit_status_is_zero_on_both_paths sample_drawing failing_env)).
    reflexivity.
Defined.

(** The specification asks for a non-zero status when the device does not
    open; the run of [failing_env] ends with status 0. *)
Lemma open_failure_status_counterexample :
  open_ok failing_env = false
  ∧ ¬ (∃ c : Z, c ≠ 0 ∧ (@run sample_drawing failing_env).1 = TERMINATED c).
Proof.
  split; [reflexivity|].
  intros (c & Hc & Hrun). vm_compute in Hrun.
  injection Hrun as <-. apply Hc. reflexivity.
Qed.

(** ** The key poll *)

(** [cv2.waitKey] answers -1 when no key was pressed and the key's code, 0
    to 255, otherwise.  Among these answers the test of the script singles
    out 27, the code of the Escape key. *)
Lemma low_byte_escape_small (k : Z) :
  -1 ≤ k ≤ 255 → (is_escape k = true ↔ k = 27).
Proof.
  intros Hk. unfold is_escape. rewrite Z.eqb_eq.
  destruct (Z.eq_dec k (-1)) as [-> | Hne].
  - split; [vm_compute; discriminate | discriminate].
  - change 255 with (Z.ones 8).
    rewrite Z.land_ones by lia.
    rewrite Z.mod_small by (change (2 ^ 8) with 256; lia).
    reflexivity.
Qed.

(** C3.  A pass that reaches the key poll polls once, with a delay of 1,
    as its last call.  The script recognises the Escape key by the low eight
    bits of the poll's answer being 27: when they are, the loop is left at
    that very pass and none of the later passes is run; when they are not,
    the pass ends like any other and the loop goes on with the next pass.
    For the answers the poll gives, -1 when no key was pressed and 0 to 255
    for a key, this means that the answer 27, the Escape key, leaves the loop
    and that every other answer lets it continue: Escape and only Escape. *)
Theorem escape_key_and_only_escape_leaves_loop `{Drawing}
    (it : Iter) (rest : list Iter) (w : World) :
  cam_open it = true → valid_read it = true →
  let w' := world_after (loop_body it) (with_events w [IsOpened true]) in
  last (trace w') = Some (WaitKey 1 (key it))
  ∧ (is_escape (key it) = true → while_loop (it :: rest) w = (Val LoopExited, w'))
  ∧ (is_escape (key it) = false → while_loop (it :: rest) w = while_loop rest w')
  ∧ (-1 ≤ key it ≤ 255 →
     (key it = 27 → while_loop (it :: rest) w = (Val LoopExited, w'))
     ∧ (key it ≠ 27 → while_loop (it :: rest) w = while_loop rest w')
     ∧ (while_loop (it :: rest) w = (Val LoopExited, w') ↔ key it = 27)).
Proof.
  intros Hcam Hvalid w'.
  assert (Hyes : is_escape (key it) = true →
                 while_loop (it :: rest) w = (Val LoopExited, w')).
  { intros Hesc. apply while_loop_escape; assumption. }
  assert (Hno : is_escape (key it) = false →
                while_loop (it :: rest) w = while_loop rest w').
  { intros Hesc. rewrite (while_loop_open it rest w Hcam). simpl.
    rewrite Hvalid, Hesc. reflexivity. }
  assert (Hstay : is_escape (key it) = false →
                  while_loop (it :: rest) w ≠ (Val LoopExited, w')).
  { intros Hesc Hexit. rewrite (Hno Hesc) in Hexit.
    (* the remaining passes add at least one call before the loop is left *)
    assert (Hlen : length (trace (while_loop rest w').2) = length (trace w'))
      by (rewrite Hexit; reflexivity).
    destruct rest as [|it' rest']; [simpl in Hexit; discriminate|].
    destruct (cam_open it') eqn:Hc.
    - rewrite (while_loop_open it' rest' w' Hc) in Hlen. simpl in Hlen.
      destruct (valid_read it' && is_escape (key it')).
      + simpl in Hlen.
        fold (trace_after (loop_body it') (with_events w' [IsOpened true])) in Hlen.
        rewrite trace_after_pass, length_app in Hlen. simpl in Hlen. lia.
      + destruct (while_loop_extends rest'
                    (world_after (loop_body it') (with_events w' [IsOpened true])))
          as [evs' Hevs'].
        unfold trace_after in Hevs' at 1. unfold world_after in Hevs' at 1.
        rewrite Hevs' in Hlen.
        fold (trace_after (loop_body it') (with_events w' [IsOpened true])) in Hlen.
        rewrite trace_after_pass, !length_app in Hlen. simpl in Hlen. lia.
    - rewrite (while_loop_closed it' rest' w' Hc) in Hlen. simpl in Hlen.
      rewrite length_app in Hlen. simpl in Hlen. lia. }
  split; [|split; [exact Hyes | split; [exact Hno|]]].
  - unfold w'. fold (trace_after (loop_body it) (with_events w [IsOpened true])).
    rewrite trace_after_pass. unfold pass_events, valid_pass_events.
    unfold valid_read in Hvalid.
    destruct (read_result it) as [[] [f|]]; try discriminate.
    rewrite last_app. destruct (detection it); reflexivity.
  - intros Hrange.
    pose proof (low_byte_escape_small (key it) Hrange) as Hsmall.
    split; [|split; [|split]].
    + intros Hk. apply Hyes, Hsmall, Hk.
    + intros Hk. apply Hno.
      destruct (is_escape (key it)) eqn:Hesc; [|reflexivity].
      exfalso. apply Hk, Hsmall. reflexivity.
    + intros Hexit. apply Hsmall.
      destruct (is_escape (key it)) eqn:Hesc; [reflexivity|].
      exfalso. exact (Hstay eq_refl Hexit).
    + intros Hk. apply Hyes, Hsmall, Hk.
Qed.

Lemma escape_key_and_only_escape_leaves_loop_witness :
  @while_loop sample_drawing
      [good_pass (Some sample_landmarks) 27; good_pass None (-1)] loop_entry
    = (Val LoopExited,
       world_after (@loop_body sample_drawing (good_pass (Some sample_landmarks) 27))
         (with_events loop_entry [IsOpened true]))
  ∧ @while_loop sample_drawing [good_pass None 113; good_pass None (-1)] loop_entry
    = @while_loop sample_drawing [good_pass None (-1)]
        (world_after (@loop_body sample_drawing (good_pass None 113))
           (with_events loop_entry [IsOpened true]))
  ∧ @while_loop sample_drawing [good_pass None (-1); good_pass None (-1)] loop_entry
    = @while_loop sample_drawing [good_pass None (-1)]
        (world_after (@loop_body sample_drawing (good_pass None (-1)))
           (with_events loop_entry [IsOpened true])).
Proof.
  split; [|split].
  - destruct (@escape_key_and_only_escape_leaves_loop sample_drawing
                (good_pass (Some sample_landmarks) 27) [good_pass None (-1)] loop_entry
                eq_refl eq_refl) as (_ & _ & _ & Hrange).
    assert (Hr : -1 ≤ key (good_pass (Some sample_landmarks) 27) ≤ 255)
      by (simpl; lia).
    destruct (Hrange Hr) as (Hyes & _ & _).
    apply Hyes. reflexivity.
  - destruct (@escape_key_and_only_escape_leaves_loop sample_drawing
                (good_pass None 113) [good_pass None (-1)] loop_entry
                eq_refl eq_refl) as (_ & _ & _ & Hrange).
    assert (Hr : -1 ≤ key (good_pass None 113) ≤ 255) by (simpl; lia).
    destruct (Hrange Hr) as (_ & Hno & _).
    apply Hno. discriminate.
  - destruct (@escape_key_and_only_escape_leaves_loop sample_drawing
                (good_pass None (-1)) [good_pass None (-1)] loop_entry
                eq_refl eq_refl) as (_ & _ & _ & Hrange).
    assert (Hr : -1 ≤ key (good_pass None (-1)) ≤ 255) by (simpl; lia).
    destruct (Hrange Hr) as (_ & Hno & _).
    apply Hno. discriminate.
Defined.

(** ** What is displayed *)

(** C4.  In a pass with a valid read of [f] in which the estimator reports
    no detection, no drawing call is made, the window is given the very
    array the camera delivered, and the pixels shown are [f]: the conversion
    wrote a different array and left that one as it was. *)
Theorem no_detection_shows_camera_frame `{Drawing} (it : Iter) (w : World) (f : Frame) :
  read_result it = (true, Some f) →
  detection it = None →
  trace_after (loop_body it) w
    = trace w
      ++ [CapRead true (Some (next_ref w, f));
          CvtColor (next_ref w) COLOR_BGR2RGB (S (next_ref w));
          PoseProcess (S (next_ref w)) (cvt_pixels COLOR_BGR2RGB f) None;
          Imshow "MediaPipe Pose IMX708" (next_ref w) f;
          WaitKey 1 (key it)]
  ∧ heap (world_after (loop_body it) w) !! next_ref w = Some f.
Proof.
  intros Hread Hdet.
  destruct (loop_body_valid it w f Hread) as (_ & Htr & Hframe & _).
  rewrite Htr, Hframe. unfold valid_pass_events. rewrite Hdet. simpl.
  split; reflexivity.
Qed.

Lemma no_detection_shows_camera_frame_witness :
  trace_after (@loop_body sample_drawing (good_pass None (-1))) loop_entry
    = startup_events
      ++ [CapRead true (Some (0%nat, sample_frame));
          CvtColor 0%nat COLOR_BGR2RGB 1%nat;
          PoseProcess 1%nat (cvt_pixels COLOR_BGR2RGB sample_frame) None;
          Imshow "MediaPipe Pose IMX708" 0%nat sample_frame;
          WaitKey 1 (-1)]
  ∧ heap (world_after (@loop_body sample_drawing (good_pass None (-1))) loop_entry)
      !! 0%nat = Some sample_frame.
Proof.
  apply (@no_detection_shows_camera_frame sample_drawing (good_pass None (-1))
           loop_entry sample_frame); reflexivity.
Defined.

(** C6.  In a pass with a valid read of [f] in which the estimator returns
    the landmark set [lm], the drawing call is made on the array the camera
    delivered (not on the converted copy) with [POSE_CONNECTIONS] as the
    connectivity graph; the window is then given that same array, whose
    pixels are [f] with the drawing applied; the converted copy still holds
    the converted pixels of [f] without any drawing, and was only given to
    the estimator. *)
Theorem detection_draws_on_original_frame `{Drawing}
    (it : Iter) (w : World) (f : Frame) (lm : Landmarks) :
  read_result it = (true, Some f) →
  detection it = Some lm →
  trace_after (loop_body it) w
    = trace w
      ++ [CapRead true (Some (next_ref w, f));
          CvtColor (next_ref w) COLOR_BGR2RGB (S (next_ref w));
          PoseProcess (S (next_ref w)) (cvt_pixels COLOR_BGR2RGB f) (Some lm);
          DrawLandmarks (next_ref w) lm POSE_CONNECTIONS;
          Imshow "MediaPipe Pose IMX708" (next_ref w)
            (draw_pixels f lm POSE_CONNECTIONS);
          WaitKey 1 (key it)]
  ∧ heap (world_after (loop_body it) w) !! next_ref w
      = Some (draw_pixels f lm POSE_CONNECTIONS)
  ∧ heap (world_after (loop_body it) w) !! S (next_ref w)
      = Some (cvt_pixels COLOR_BGR2RGB f).
Proof.
  intros Hread Hdet.
  destruct (loop_body_valid it w f Hread) as (_ & Htr & Hframe & Hcopy).
  rewrite Htr, Hframe, Hcopy. unfold valid_pass_events. rewrite Hdet. simpl.
  repeat split; reflexivity.
Qed.

Lemma detection_draws_on_original_frame_witness :
  trace_after (@loop_body sample_drawing (good_pass (Some sample_landmarks) (-1)))
      loop_entry
    = startup_events
      ++ [CapRead true (Some (0%nat, sample_frame));
          CvtColor 0%nat COLOR_BGR2RGB 1%nat;
          PoseProcess 1%nat (cvt_pixels COLOR_BGR2RGB sample_frame)
            (Some sample_landmarks);
          DrawLandmarks 0%nat sample_landmarks {[ (0%nat, 1%nat) ]};
          Imshow "MediaPipe Pose IMX708" 0%nat
            [[(Byte.xff, Byte.xff, Byte.xff); (Byte.x28, Byte.x32, Byte.x3c)]];
          WaitKey 1 (-1)]
  ∧ heap (world_after
            (@loop_body sample_drawing (good_pass (Some sample_landmarks) (-1)))
            loop_entry) !! 0%nat
      = Some [[(Byte.xff, Byte.xff, Byte.xff); (Byte.x28, Byte.x32, Byte.x3c)]]
  ∧ heap (world_after
            (@loop_body sample_drawing (good_pass (Some sample_landmarks) (-1)))
            loop_entry) !! 1%nat
      = Some [[(Byte.x1e, Byte.x14, Byte.x0a); (Byte.x3c, Byte.x32, Byte.x28)]].
Proof.
  apply (@detection_draws_on_original_frame sample_drawing
           (good_pass (Some sample_landmarks) (-1)) loop_entry sample_frame
           sample_landmarks); reflexivity.
Defined.

(** ** Failure to open the camera *)

(** C5.  If the device does not open, the process is terminated and the
    calls it made are: the construction of the estimator, the start-up
    message, the attempt to open the device, the one check of the handle,
    and the error message.  So the loop was not entered (its condition was
    never evaluated), no frame was read, the estimator was never asked to
    process anything, and no window was shown; the observed passes play no
    role. *)
Theorem open_failure_terminates_before_loop `{Drawing} (env : Env) :
  open_ok env = false →
  (∃ c, (run env).1 = TERMINATED c)
  ∧ trace (run env).2
      = [Pose_init pose_config;
         Print "Iniciando cámara IMX708...";
         VideoCapture 0 CAP_V4L2;
         IsOpened false;
         Print "Error: No se pudo acceder a la cámara."]
  ∧ count is_isOpened (trace (run env).2) = 1%nat
  ∧ count is_read (trace (run env).2) = 0%nat
  ∧ count is_process (trace (run env).2) = 0%nat
  ∧ count is_imshow (trace (run env).2) = 0%nat
  ∧ run env = run {| open_ok := false; iters := [] |}.
Proof.
  intros Hopen.
  rewrite (run_open_failure env Hopen).
  simpl. repeat split; try reflexivity.
  exists 0. reflexivity.
Qed.

Lemma open_failure_terminates_before_loop_witness :
  open_ok failing_env = false
  ∧ count is_read (trace (@run sample_drawing failing_env).2) = 0%nat
  ∧ count is_process (trace (@run sample_drawing failing_env).2) = 0%nat
  ∧ count is_imshow (trace (@run sample_drawing failing_env).2) = 0%nat.
Proof.
  split; [reflexivity|].
  destruct (@open_failure_terminates_before_loop sample_drawing failing_env eq_refl)
    as (_ & _ & _ & Hread & Hprocess & Hshow & _).
  repeat split; assumption.
Defined.

(** ** Leaving the loop *)

(** C7.  When a pass reaches the key poll and the poll's answer passes the
    Escape test, the very next calls are the release of the camera handle
    and the closing of all windows, and they are the last calls of the
    process: nothing else is cleaned up.  Neither call was made before, and
    the passes that would have followed are not run (the run is the same as
    if they were not there). *)
Theorem escape_releases_camera_and_closes_windows `{Drawing}
    (env : Env) (pre post : list Iter) (it : Iter) :
  open_ok env = true →
  iters env = pre ++ it :: post →
  Forall (λ p, stops p = false) pre →
  cam_open it = true → valid_read it = true → is_escape (key it) = true →
  (∃ before,
     trace (run env).2 = before ++ [WaitKey 1 (key it); CapRelease; DestroyAllWindows]
     ∧ count is_cleanup before = 0%nat)
  ∧ (∃ c, (run env).1 = TERMINATED c)
  ∧ run env = run {| open_ok := true; iters := pre ++ [it] |}.
Proof.
  intros Hopen Hits Hpre Hcam Hvalid Hesc.
  set (w1 := world_after (while_loop pre) loop_entry).
  set (w2 := world_after (loop_body it) (with_events w1 [IsOpened true])).
  assert (Hloop : ∀ post', while_loop (pre ++ it :: post') loop_entry
                           = (Val LoopExited, w2)).
  { intros post'. rewrite (while_loop_app pre (it :: post') loop_entry Hpre).
    apply while_loop_escape; assumption. }
  assert (Hrun : ∀ e, open_ok e = true → (∃ post', iters e = pre ++ it :: post') →
                      run e = (TERMINATED 0,
                               with_events w2 [CapRelease; DestroyAllWindows])).
  { intros e He [post' Hp]. rewrite (run_opened e He), Hp, Hloop. reflexivity. }
  rewrite (Hrun env Hopen (ex_intro _ post Hits)).
  rewrite (Hrun {| open_ok := true; iters := pre ++ [it] |} eq_refl
             (ex_intro _ [] eq_refl)).
  split; [|split; [exists 0; reflexivity | reflexivity]].
  simpl. unfold w2.
  fold (trace_after (loop_body it) (with_events w1 [IsOpened true])).
  rewrite trace_after_pass.
  unfold pass_events. unfold valid_read in Hvalid.
  destruct (read_result it) as [[] [f|]]; try discriminate.
  unfold valid_pass_events.
  exists (trace w1
          ++ [IsOpened true; CapRead true (Some (next_ref w1, f));
              CvtColor (next_ref w1) COLOR_BGR2RGB (S (next_ref w1));
              PoseProcess (S (next_ref w1)) (cvt_pixels COLOR_BGR2RGB f) (detection it)]
          ++ match detection it with
             | Some lm => [DrawLandmarks (next_ref w1) lm POSE_CONNECTIONS]
             | None => []
             end
          ++ [Imshow "MediaPipe Pose IMX708" (next_ref w1)
                (shown_pixels f (detection it))]).
  split.
  - rewrite <- !app_assoc. simpl. rewrite <- !app_assoc. reflexivity.
  - rewrite count_app. unfold w1.
    fold (trace_after (while_loop pre) loop_entry).
    rewrite (while_loop_count is_cleanup (λ _, 0%nat));
      [|intros; apply pass_count_cleanup | reflexivity].
    rewrite sum_list_with_zero. destruct (detection it); reflexivity.
Qed.

Lemma escape_releases_camera_and_closes_windows_witness :
  (∃ before,
     trace (@run sample_drawing escape_env).2
       = before ++ [WaitKey 1 27; CapRelease; DestroyAllWindows]
     ∧ count is_cleanup before = 0%nat)
  ∧ (∃ c, (@run sample_drawing escape_env).1 = TERMINATED c)
  ∧ @run sample_drawing escape_env
    = @run sample_drawing
        {| open_ok := true;
           iters := [failed_pass; good_pass None (-1)]
                    ++ [good_pass (Some sample_landmarks) 27] |}.
Proof.
  apply (@escape_releases_camera_and_closes_windows sample_drawing escape_env
           [failed_pass; good_pass None (-1)] [good_pass None (-1)]
           (good_pass (Some sample_landmarks) 27));
    try reflexivity.
  repeat constructor.
Defined.

(** ** Initialisation *)

(** C8.  The first call of every run constructs the estimator with
    [static_image_mode] off (streaming mode), model complexity 0 (no
    non-negative selector is smaller) and both confidence thresholds equal to
    one half.  The device is then opened as device 0 with the V4L2 backend
    and, once it is open, asked for a width of 640 and a height of 480
    before anything else is done with it. *)
Theorem initial_configuration `{Drawing} (env : Env) :
  static_image_mode pose_config = false
  ∧ model_complexity pose_config = 0
  ∧ (∀ c : Z, 0 ≤ c → model_complexity pose_config ≤ c)
  ∧ Qeq (min_detection_confidence pose_config) (1 # 2)
  ∧ Qeq (min_tracking_confidence pose_config) (1 # 2)
  ∧ ∃ rest,
      trace (run env).2
        = Pose_init pose_config
          :: Print "Iniciando cámara IMX708..."
          :: VideoCapture 0 CAP_V4L2
          :: IsOpened (open_ok env)
          :: rest
      ∧ (open_ok env = true →
         ∃ rest',
           rest = CapSet CAP_PROP_FRAME_WIDTH 640
                  :: CapSet CAP_PROP_FRAME_HEIGHT 480
                  :: rest').
Proof.
  split; [reflexivity|]. split; [reflexivity|].
  split; [intros c Hc; exact Hc|].
  split; [reflexivity|]. split; [reflexivity|].
  destruct (open_ok env) eqn:Hopen.
  - destruct (while_loop_extends (iters env) loop_entry) as [evs Hevs].
    unfold trace_after in Hevs.
    destruct (run_opened_cases env Hopen) as [[_ Hrun] | [_ Hrun]];
      rewrite Hrun; simpl; rewrite Hevs; simpl;
      (eexists; split; [reflexivity | intros _; eexists; reflexivity]).
  - rewrite (run_open_failure env Hopen). simpl.
    eexists; split; [reflexivity | discriminate].
Qed.

Lemma initial_configuration_witness :
  ∃ rest',
    trace (@run sample_drawing escape_env).2
      = Pose_init {| static_image_mode := false;
                     model_complexity := 0;
                     min_detection_confidence := 0.5;
                     min_tracking_confidence := 0.5 |}
        :: Print "Iniciando cámara IMX708..."
        :: VideoCapture 0 200
        :: IsOpened true
        :: CapSet 3 640
        :: CapSet 4 480
        :: rest'.
Proof.
  destruct (@initial_configuration sample_drawing escape_env)
    as (_ & _ & _ & _ & _ & rest & Htrace & Hset).
  destruct (Hset eq_refl) as [rest' Hrest].
  exists rest'. rewrite Htrace, Hrest. reflexivity.
Defined.

(** ** Failed reads *)

(** C9.  A pass whose read failed or delivered no frame ends with
    [continue] before the estimator, the window and the key poll are
    reached: none of the three is called in that pass, whatever answer the
    poll would have given.  Consequently a run in which every observed read
    is like that is still looping after all of them, one read per pass, and
    has never shown a frame or polled a key, even if Escape was there to be
    read at each pass. *)
Theorem failed_reads_bypass_display_and_key_poll `{Drawing} :
  (∀ (it : Iter) (w : World),
     valid_read it = false →
     (loop_body it w).1 = Val Next
     ∧ count is_process (trace_after (loop_body it) w) = count is_process (trace w)
     ∧ count is_imshow (trace_after (loop_body it) w) = count is_imshow (trace w)
     ∧ count is_waitkey (trace_after (loop_body it) w) = count is_waitkey (trace w))
  ∧ (∀ env : Env,
       open_ok env = true →
       Forall (λ it, cam_open it = true ∧ valid_read it = false) (iters env) →
       (run env).1 = RUNNING
       ∧ count is_read (trace (run env).2) = length (iters env)
       ∧ count is_process (trace (run env).2) = 0%nat
       ∧ count is_imshow (trace (run env).2) = 0%nat
       ∧ count is_waitkey (trace (run env).2) = 0%nat
       ∧ count is_cleanup (trace (run env).2) = 0%nat).
Proof.
  split.
  - intros it w Hvalid.
    destruct (loop_body_spec it w) as [Hres Htr].
    rewrite Hres, Htr, Hvalid, !count_app.
    rewrite pass_count_process, pass_count_imshow, pass_count_waitkey, Hvalid.
    simpl. repeat split; lia.
  - intros env Hopen Hall.
    assert (Hgo : Forall (λ it, stops it = false) (iters env)).
    { eapply Forall_impl; [exact Hall|].
      intros it [Hc Hv]. unfold stops. rewrite Hc, Hv. reflexivity. }
    assert (Hex : executed (iters env) = iters env).
    { rewrite <- (app_nil_r (iters env)) at 1.
      rewrite (executed_app _ [] Hgo). apply app_nil_r. }
    assert (Hnone : count valid_read (iters env) = 0%nat).
    { clear -Hall. induction Hall as [|it l [_ Hv] _ IH]; [reflexivity|].
      simpl. rewrite Hv, IH. reflexivity. }
    split; [|split; [|split; [|split; [|split]]]].
    + destruct (run_opened_cases env Hopen) as [[_ Hrun] | [Hres _]].
      * rewrite Hrun. reflexivity.
      * rewrite (while_loop_running _ loop_entry Hgo) in Hres. discriminate.
    + rewrite (run_count is_read (λ _, 1%nat) env); try reflexivity; try assumption;
        [|intros; apply pass_count_read].
      rewrite Hex, sum_list_with_one. reflexivity.
    + rewrite (run_count is_process (λ it, if valid_read it then 1%nat else 0%nat) env);
        try reflexivity; try assumption; [|intros; apply pass_count_process].
      rewrite Hex, sum_list_with_indicator, Hnone. reflexivity.
    + rewrite (run_count is_imshow (λ it, if valid_read it then 1%nat else 0%nat) env);
        try reflexivity; try assumption; [|intros; apply pass_count_imshow].
      rewrite Hex, sum_list_with_indicator, Hnone. reflexivity.
    + rewrite (run_count is_waitkey (λ it, if valid_read it then 1%nat else 0%nat) env);
        try reflexivity; try assumption; [|intros; apply pass_count_waitkey].
      rewrite Hex, sum_list_with_indicator, Hnone. reflexivity.
    + destruct (run_opened_cases env Hopen) as [[_ Hrun] | [Hres _]].
      * rewrite Hrun. simpl.
        fold (trace_after (while_loop (iters env)) loop_entry).
        rewrite (while_loop_count is_cleanup (λ _, 0%nat));
          [|intros; apply pass_count_cleanup | reflexivity].
        rewrite sum_list_with_zero. reflexivity.
      * rewrite (while_loop_running _ loop_entry Hgo) in Hres. discriminate.
Qed.

Lemma failed_reads_bypass_display_and_key_poll_witness :
  Forall (λ it, key it = 27) (iters failing_reads_env)
  ∧ (@run sample_drawing failing_reads_env).1 = RUNNING
  ∧ count is_read (trace (@run sample_drawing failing_reads_env).2) = 5%nat
  ∧ count is_process (trace (@run sample_drawing failing_reads_env).2) = 0%nat
  ∧ count is_imshow (trace (@run sample_drawing failing_reads_env).2) = 0%nat
  ∧ count is_waitkey (trace (@run sample_drawing failing_reads_env).2) = 0%nat
  ∧ count is_cleanup (trace (@run sample_drawing failing_reads_env).2) = 0%nat.
Proof.
  split; [repeat constructor|].
  apply (proj2 (@failed_reads_bypass_display_and_key_poll sample_drawing)
           failing_reads_env); [reflexivity|].
  repeat constructor.
Defined.

(** ** Cleanup *)

(** C10.  When the device does not open, the process is terminated without
    having released the camera handle or closed any window.  In any run, if
    one of these two calls has been made then the device had opened and the
    loop has been left, and the two calls are the last two of the run, made
    once each: the cleanup is only reached by leaving the loop. *)
Theorem cleanup_only_after_loop_exit `{Drawing} (env : Env) :
  (open_ok env = false →
   (∃ c, (run env).1 = TERMINATED c)
   ∧ count is_cleanup (trace (run env).2) = 0%nat)
  ∧ (count is_cleanup (trace (run env).2) ≠ 0%nat →
     open_ok env = true
     ∧ (while_loop (iters env) loop_entry).1 = Val LoopExited
     ∧ ∃ before,
         trace (run env).2 = before ++ [CapRelease; DestroyAllWindows]
         ∧ count is_cleanup before = 0%nat).
Proof.
  assert (Hloop : count is_cleanup (trace_after (while_loop (iters env)) loop_entry)
                  = 0%nat).
  { rewrite (while_loop_count is_cleanup (λ _, 0%nat));
      [|intros; apply pass_count_cleanup | reflexivity].
    rewrite sum_list_with_zero. reflexivity. }
  split.
  - intros Hopen. rewrite (run_open_failure env Hopen). simpl.
    split; [exists 0|]; reflexivity.
  - intros Hsome. destruct (open_ok env) eqn:Hopen.
    + destruct (run_opened_cases env Hopen) as [[_ Hrun] | [Hres Hrun]].
      * rewrite Hrun in Hsome. simpl in Hsome. contradiction.
      * split; [reflexivity|]. split; [exact Hres|].
        rewrite Hrun. simpl. eexists. split; [reflexivity | exact Hloop].
    + rewrite (run_open_failure env Hopen) in Hsome. simpl in Hsome. contradiction.
Qed.

Lemma cleanup_only_after_loop_exit_witness :
  (open_ok failing_env = false
   ∧ count is_cleanup (trace (@run sample_drawing failing_env).2) = 0%nat)
  ∧ (count is_cleanup (trace (@run sample_drawing escape_env).2) = 2%nat
     ∧ (@while_loop sample_drawing (iters escape_env) loop_entry).1 = Val LoopExited).
Proof.
  split.
  - split; [reflexivity|].
    apply (proj1 (@cleanup_only_after_loop_exit sample_drawing failing_env)).
    reflexivity.
  - split; [reflexivity|].
    apply (proj2 (@cleanup_only_after_loop_exit sample_drawing escape_env)).
    vm_compute. discriminate.
Defined.

(** ** How a run ends, in general *)

Section Ending.
Context `{D : Drawing}.

(** The loop is left exactly when one of the observed passes stops it. *)
Lemma while_loop_result (its : list Iter) (w : World) :
  (while_loop its w).1
    = Val (if existsb stops its then LoopExited else StillLooping).
Proof.
  revert w. induction its as [|it rest IH]; intros w; [reflexivity|].
  simpl existsb. unfold stops at 1.
  destruct (cam_open it) eqn:Hopen.
  - rewrite (while_loop_open it rest w Hopen). simpl.
    destruct (valid_read it && is_escape (key it)); [reflexivity | apply IH].
  - rewrite (while_loop_closed it rest w Hopen). reflexivity.
Qed.

(** The handle reporting closed at the head of a pass ends the loop with
    that check as the last call. *)
Lemma while_loop_closed_after (pre post : list Iter) (it : Iter) (w : World) :
  Forall (λ p, stops p = false) pre →
  cam_open it = false →
  while_loop (pre ++ it :: post) w
    = (Val LoopExited,
       with_events (world_after (while_loop pre) w) [IsOpened false]).
Proof.
  intros Hpre Hclosed.
  rewrite (while_loop_app pre (it :: post) w Hpre).
  apply while_loop_closed. exact Hclosed.
Qed.

End Ending.

(** X1.  When the handle reports closed at the head of a pass (the passes
    before did not stop the loop), the loop is left without reading: the
    process is terminated with status 0, the last three calls are that check,
    the release of the handle and the closing of the windows, the trace
    before them is the trace of the passes before, and the passes that would
    have followed are not run. *)
Theorem closed_handle_leaves_loop_and_cleans_up `{Drawing}
    (env : Env) (pre post : list Iter) (it : Iter) :
  open_ok env = true →
  iters env = pre ++ it :: post →
  Forall (λ p, stops p = false) pre →
  cam_open it = false →
  (run env).1 = TERMINATED 0
  ∧ trace (run env).2
      = trace (run {| open_ok := true; iters := pre |}).2
        ++ [IsOpened false; CapRelease; DestroyAllWindows]
  ∧ count is_read (trace (run env).2) = length pre
  ∧ run env = run {| open_ok := true; iters := pre ++ [it] |}.
Proof.
  intros Hopen Hits Hpre Hclosed.
  assert (Hrun : ∀ e post', open_ok e = true → iters e = pre ++ it :: post' →
                 run e = (TERMINATED 0,
                          with_events
                            (with_events (world_after (while_loop pre) loop_entry)
                               [IsOpened false])
                            [CapRelease; DestroyAllWindows])).
  { intros e post' He Hp.
    rewrite (run_opened e He), Hp.
    rewrite (while_loop_closed_after pre post' it loop_entry Hpre Hclosed).
    reflexivity. }
  assert (Hpre_run : run {| open_ok := true; iters := pre |}
                     = (RUNNING, world_after (while_loop pre) loop_entry)).
  { destruct (run_opened_cases {| open_ok := true; iters := pre |} eq_refl)
      as [[_ Hr] | [Hres _]]; [exact Hr|].
    simpl in Hres. rewrite (while_loop_running pre loop_entry Hpre) in Hres.
    discriminate. }
  rewrite (Hrun env post Hopen Hits).
  rewrite (Hrun {| open_ok := true; iters := pre ++ [it] |} [] eq_refl eq_refl).
  rewrite Hpre_run.
  split; [reflexivity|]. split; [|split; [|reflexivity]].
  - simpl. rewrite <- app_assoc. reflexivity.
  - simpl. rewrite !count_app. simpl.
    fold (trace_after (while_loop pre) loop_entry).
    rewrite (while_loop_count is_read (λ _, 1%nat));
      [|intros; apply pass_count_read | reflexivity].
    rewrite <- (app_nil_r pre) at 1.
    rewrite (executed_app pre [] Hpre), app_nil_r, sum_list_with_one.
    simpl. lia.
Qed.

Lemma closed_handle_leaves_loop_and_cleans_up_witness :
  (@run sample_drawing closing_env).1 = TERMINATED 0
  ∧ trace (@run sample_drawing closing_env).2
      = trace (@run sample_drawing
                 {| open_ok := true;
                    iters := [good_pass (Some sample_landmarks) (-1); failed_pass] |}).2
        ++ [IsOpened false; CapRelease; DestroyAllWindows]
  ∧ count is_read (trace (@run sample_drawing closing_env).2) = 2%nat.
Proof.
  destruct (@closed_handle_leaves_loop_and_cleans_up sample_drawing closing_env
              [good_pass (Some sample_landmarks) (-1); failed_pass]
              [good_pass None (-1)]
              {| cam_open := false; read_result := (true, Some sample_frame);
                 detection := None; key := -1 |}
              eq_refl eq_refl)
    as (Hstatus & Htrace & Hreads & _).
  - repeat constructor.
  - reflexivity.
  - split; [exact Hstatus|]. split; [exact Htrace | exact Hreads].
Defined.

(** X2.  The state of the process after any run, in closed form: it is
    still running exactly when the device opened and none of the observed
    passes stops the loop (the handle reports open at each, and no pass with
    a valid read gets a poll answer that passes the Escape test); otherwise
    it is terminated, and always with status 0. *)
Theorem run_status_closed_form `{Drawing} (env : Env) :
  (run env).1
    = if open_ok env && negb (existsb stops (iters env))
      then RUNNING
      else TERMINATED 0.
Proof.
  destruct (open_ok env) eqn:Hopen; simpl.
  - pose proof (while_loop_result (iters env) loop_entry) as Hres.
    destruct (run_opened_cases env Hopen) as [[Hloop Hrun] | [Hloop Hrun]];
      rewrite Hrun; rewrite Hloop in Hres;
      destruct (existsb stops (iters env)); simpl; congruence.
  - rewrite (run_open_failure env Hopen). reflexivity.
Qed.

(** ** Counting calls over whole runs *)

Section Counting.
Context `{D : Drawing}.

(** A pass makes none of the calls of the start-up sequence. *)
Lemma pass_count_setup (p : event → bool) (r : ref) (it : Iter) :
  (∀ s fr, p (CapRead s fr) = false) →
  (∀ a c b, p (CvtColor a c b) = false) →
  (∀ a px l, p (PoseProcess a px l) = false) →
  (∀ a l c, p (DrawLandmarks a l c) = false) →
  (∀ n a px, p (Imshow n a px) = false) →
  (∀ d k, p (WaitKey d k) = false) →
  count p (pass_events r it) = 0%nat.
Proof.
  intros Hread Hcvt Hproc Hdraw Hshow Hpoll.
  unfold pass_events, valid_pass_events.
  destruct (read_result it) as [[] [f|]]; destruct (detection it); simpl;
    rewrite ?Hread, ?Hcvt, ?Hproc, ?Hdraw, ?Hshow, ?Hpoll; reflexivity.
Qed.

(** Counting over any run, open device or not. *)
Lemma run_count_setup (p : event → bool) (env : Env) :
  (∀ s fr, p (CapRead s fr) = false) →
  (∀ a c b, p (CvtColor a c b) = false) →
  (∀ a px l, p (PoseProcess a px l) = false) →
  (∀ a l c, p (DrawLandmarks a l c) = false) →
  (∀ n a px, p (Imshow n a px) = false) →
  (∀ d k, p (WaitKey d k) = false) →
  (∀ b, p (IsOpened b) = false) →
  p CapRelease = false → p DestroyAllWindows = false →
  count p (trace (run env).2)
    = if open_ok env then count p startup_events else count p open_failure_events.
Proof.
  intros Hread Hcvt Hproc Hdraw Hshow Hpoll Hhead Hrel Hdestroy.
  destruct (open_ok env) eqn:Hopen.
  - rewrite (run_count p (λ _, 0%nat) env); try assumption.
    + rewrite sum_list_with_zero. lia.
    + intros r it. apply pass_count_setup; assumption.
  - rewrite (run_open_failure env Hopen). reflexivity.
Qed.

End Counting.

(** X3.  In any run, every frame given to the estimator is shown exactly
    once and followed by exactly one key poll: the numbers of estimator
    calls, display calls and key polls are equal, and none exceeds the number
    of reads. *)
Theorem processed_frames_are_shown_and_polled_once `{Drawing} (env : Env) :
  count is_imshow (trace (run env).2) = count is_process (trace (run env).2)
  ∧ count is_waitkey (trace (run env).2) = count is_process (trace (run env).2)
  ∧ (count is_process (trace (run env).2) ≤ count is_read (trace (run env).2))%nat.
Proof.
  destruct (open_ok env) eqn:Hopen.
  - rewrite (run_count is_imshow (λ it, if valid_read it then 1%nat else 0%nat) env);
      try reflexivity; try assumption; [|intros; apply pass_count_imshow].
    rewrite (run_count is_waitkey (λ it, if valid_read it then 1%nat else 0%nat) env);
      try reflexivity; try assumption; [|intros; apply pass_count_waitkey].
    rewrite (run_count is_process (λ it, if valid_read it then 1%nat else 0%nat) env);
      try reflexivity; try assumption; [|intros; apply pass_count_process].
    rewrite (run_count is_read (λ _, 1%nat) env);
      try reflexivity; try assumption; [|intros; apply pass_count_read].
    split; [reflexivity|]. split; [reflexivity|].
    simpl. induction (executed (iters env)) as [|it l IH]; simpl; [lia|].
    destruct (valid_read it); lia.
  - rewrite (run_open_failure env Hopen). simpl. repeat split; lia.
Qed.

(** X4.  The start-up calls are made once per run and never inside the
    loop: the estimator is constructed once, the device is opened once, the
    two resolution requests are made once each when the device opened (and
    not at all otherwise), and the only messages printed are the three
    start-up messages, or the start-up message and the error message; no
    pass of the loop prints anything, however its read went. *)
Theorem setup_calls_once_and_loop_is_silent `{Drawing} (env : Env) :
  count is_pose_init (trace (run env).2) = 1%nat
  ∧ count is_videocapture (trace (run env).2) = 1%nat
  ∧ count is_capset (trace (run env).2) = (if open_ok env then 2 else 0)%nat
  ∧ count is_print (trace (run env).2) = (if open_ok env then 3 else 2)%nat.
Proof.
  rewrite (run_count_setup is_pose_init env); try reflexivity.
  rewrite (run_count_setup is_videocapture env); try reflexivity.
  rewrite (run_count_setup is_capset env); try reflexivity.
  rewrite (run_count_setup is_print env); try reflexivity.
  destruct (open_ok env); repeat split; reflexivity.
Qed.

(** ** The exit test, for every integer *)

(** The masked comparison of the script, as a remainder. *)
Lemma is_escape_mod (k : Z) : is_escape k = true ↔ k mod 256 = 27.
Proof.
  unfold is_escape. rewrite Z.eqb_eq.
  change 255 with (Z.ones 8). rewrite Z.land_ones by lia.
  change (2 ^ 8) with 256. reflexivity.
Qed.

(** X5.  A pass that reaches the key poll ends with [break] exactly when
    the poll's answer leaves remainder 27 when divided by 256, for every
    integer answer, negative ones included: answers that differ by a
    multiple of 256 are treated alike, so 27 with extra high bits set still
    leaves the loop, and -1 (no key) never does. *)
Theorem poll_answer_counts_modulo_256 `{Drawing} (it : Iter) (w : World) :
  valid_read it = true →
  ((loop_body it w).1 = Val Break ↔ key it mod 256 = 27)
  ∧ ((loop_body it w).1 = Val Next ↔ key it mod 256 ≠ 27).
Proof.
  intros Hvalid.
  destruct (loop_body_spec it w) as [Hres _].
  rewrite Hres, Hvalid. simpl.
  rewrite <- (is_escape_mod (key it)).
  destruct (is_escape (key it)); split; split; intros Hx;
    try reflexivity; try discriminate; try congruence.
Qed.

Lemma poll_answer_counts_modulo_256_witness :
  (@loop_body sample_drawing (good_pass None 0x10001B) loop_entry).1 = Val Break
  ∧ (@loop_body sample_drawing (good_pass None (-229)) loop_entry).1 = Val Break
  ∧ (@loop_body sample_drawing (good_pass None (-1)) loop_entry).1 = Val Next.
Proof.
  split; [|split].
  - apply (proj1 (@poll_answer_counts_modulo_256 sample_drawing
                    (good_pass None 0x10001B) loop_entry eq_refl)).
    reflexivity.
  - apply (proj1 (@poll_answer_counts_modulo_256 sample_drawing
                    (good_pass None (-229)) loop_entry eq_refl)).
    reflexivity.
  - apply (proj2 (@poll_answer_counts_modulo_256 sample_drawing
                    (good_pass None (-1)) loop_entry eq_refl)).
    discriminate.
Defined.

(** ** Frames through a whole run *)

Section Collecting.
Context `{D : Drawing}.

(** Collecting data from the calls made by the loop, when what a pass
    contributes does not depend on the array identities. *)
Lemma while_loop_collect {X : Type} (proj : event → list X) (g : Iter → list X) :
  (∀ r it, flat_map proj (pass_events r it) = g it) →
  (∀ b, proj (IsOpened b) = []) →
  ∀ (its : list Iter) (w : World),
    flat_map proj (trace_after (while_loop its) w)
      = flat_map proj (trace w) ++ flat_map g (executed its).
Proof.
  intros Hpass Hhead its.
  induction its as [|it rest IH]; intros w.
  - unfold trace_after, world_after. simpl. rewrite app_nil_r. reflexivity.
  - simpl executed. destruct (cam_open it) eqn:Hopen.
    + unfold trace_after, world_after.
      rewrite (while_loop_open it rest w Hopen). simpl.
      destruct (valid_read it && is_escape (key it)); simpl.
      * fold (world_after (loop_body it) (with_events w [IsOpened true])).
        fold (trace_after (loop_body it) (with_events w [IsOpened true])).
        rewrite trace_after_pass, flat_map_app. simpl.
        rewrite Hhead, Hpass, app_nil_r. reflexivity.
      * fold (world_after (while_loop rest)
                (world_after (loop_body it) (with_events w [IsOpened true]))).
        fold (trace_after (while_loop rest)
                (world_after (loop_body it) (with_events w [IsOpened true]))).
        rewrite IH.
        fold (trace_after (loop_body it) (with_events w [IsOpened true])).
        rewrite trace_after_pass, flat_map_app. simpl.
        rewrite Hhead, Hpass, <- app_assoc. reflexivity.
    + unfold trace_after, world_after.
      rewrite (while_loop_closed it rest w Hopen). simpl.
      rewrite flat_map_app. simpl. rewrite Hhead, !app_nil_r. reflexivity.
Qed.

Lemma run_collect {X : Type} (proj : event → list X) (g : Iter → list X) (env : Env) :
  (∀ r it, flat_map proj (pass_events r it) = g it) →
  (∀ b, proj (IsOpened b) = []) →
  proj CapRelease = [] → proj DestroyAllWindows = [] →
  open_ok env = true →
  flat_map proj (trace (run env).2)
    = flat_map proj startup_events ++ flat_map g (executed (iters env)).
Proof.
  intros Hpass Hhead Hrel Hdestroy Hopen.
  pose proof (while_loop_collect proj g Hpass Hhead (iters env) loop_entry) as Hc.
  destruct (run_opened_cases env Hopen) as [[_ Hrun] | [_ Hrun]];
    rewrite Hrun; simpl.
  - exact Hc.
  - rewrite flat_map_app. simpl. rewrite Hrel, Hdestroy.
    fold (trace_after (while_loop (iters env)) loop_entry). rewrite Hc.
    simpl. rewrite app_nil_r. reflexivity.
Qed.

Lemma pass_processed_pixels (r : ref) (it : Iter) :
  flat_map processed_pixels (pass_events r it)
    = map (cvt_pixels COLOR_BGR2RGB) (valid_frame it).
Proof.
  unfold pass_events, valid_frame, valid_pass_events.
  destruct (read_result it) as [[] [f|]]; destruct (detection it); reflexivity.
Qed.

Lemma pass_displayed_pixels (r : ref) (it : Iter) :
  flat_map displayed_pixels (pass_events r it)
    = map (λ f, shown_pixels f (detection it)) (valid_frame it).
Proof.
  unfold pass_events, valid_frame, valid_pass_events.
  destruct (read_result it) as [[] [f|]]; destruct (detection it); reflexivity.
Qed.

Lemma flat_map_map_frames (h : Frame → Frame) (l : list Iter) :
  flat_map (λ it, map h (valid_frame it)) l = map h (flat_map valid_frame l).
Proof.
  induction l as [|it l IH]; simpl; [reflexivity|].
  rewrite IH, map_app. reflexivity.
Qed.

(** Any property of calls that the start-up calls, the loop-head checks and
    the calls of each pass have, all calls of the loop have. *)
Lemma while_loop_Forall (P : event → Prop) :
  (∀ r it, Forall P (pass_events r it)) →
  (∀ b, P (IsOpened b)) →
  ∀ (its : list Iter) (w : World),
    Forall P (trace w) → Forall P (trace_after (while_loop its) w).
Proof.
  intros Hpass Hhead its.
  induction its as [|it rest IH]; intros w Hw; [exact Hw|].
  unfold trace_after, world_after.
  destruct (cam_open it) eqn:Hopen.
  - rewrite (while_loop_open it rest w Hopen). simpl.
    assert (Hafter : Forall P (trace (world_after (loop_body it)
                                        (with_events w [IsOpened true])))).
    { fold (trace_after (loop_body it) (with_events w [IsOpened true])).
      rewrite trace_after_pass. apply Forall_app. split; [exact Hw|].
      constructor; [apply Hhead | apply Hpass]. }
    destruct (valid_read it && is_escape (key it)); simpl; [exact Hafter|].
    apply IH. exact Hafter.
  - rewrite (while_loop_closed it rest w Hopen). simpl.
    apply Forall_app. split; [exact Hw|]. constructor; [apply Hhead | constructor].
Qed.

Lemma pass_uniform (r : ref) (it : Iter) : Forall uniform_call (pass_events r it).
Proof.
  unfold pass_events, valid_pass_events.
  destruct (read_result it) as [[] [f|]]; destruct (detection it);
    repeat constructor.
Qed.

End Collecting.

(** X6.  Over a whole run with an open device, the frames given to the
    estimator are the frames of the valid reads of the entered passes,
    converted, in reading order, each once; and the frames shown are those
    same frames, unconverted, each with the drawing applied exactly when the
    estimator returned landmarks for it.  No frame is processed or shown
    twice, skipped, or taken from an earlier pass. *)
Theorem frames_processed_and_shown_in_reading_order `{Drawing} (env : Env) :
  open_ok env = true →
  flat_map processed_pixels (trace (run env).2)
    = map (cvt_pixels COLOR_BGR2RGB) (flat_map valid_frame (executed (iters env)))
  ∧ flat_map displayed_pixels (trace (run env).2)
    = flat_map (λ it, map (λ f, shown_pixels f (detection it)) (valid_frame it))
        (executed (iters env)).
Proof.
  intros Hopen. split.
  - rewrite (run_collect processed_pixels
               (λ it, map (cvt_pixels COLOR_BGR2RGB) (valid_frame it)) env);
      try reflexivity; try assumption; [|intros; apply pass_processed_pixels].
    simpl. apply flat_map_map_frames.
  - rewrite (run_collect displayed_pixels
               (λ it, map (λ f, shown_pixels f (detection it)) (valid_frame it)) env);
      try reflexivity; try assumption.
    intros; apply pass_displayed_pixels.
Qed.

Lemma frames_processed_and_shown_in_reading_order_witness :
  flat_map processed_pixels (trace (@run sample_drawing two_frames_env).2)
    = [cvt_pixels COLOR_BGR2RGB sample_frame; cvt_pixels COLOR_BGR2RGB other_frame]
  ∧ flat_map displayed_pixels (trace (@run sample_drawing two_frames_env).2)
    = [sample_draw sample_frame sample_landmarks {[ (0%nat, 1%nat) ]}; other_frame].
Proof.
  apply (@frames_processed_and_shown_in_reading_order sample_drawing two_frames_env).
  reflexivity.
Defined.

(** X7.  In any run, every display call names the one window
    "MediaPipe Pose IMX708", every key poll waits 1, every conversion uses
    the BGR-to-RGB code and every drawing call uses [POSE_CONNECTIONS]: the
    script never opens a second window and never varies these arguments. *)
Theorem calls_use_fixed_arguments `{Drawing} (env : Env) :
  Forall uniform_call (trace (run env).2).
Proof.
  destruct (open_ok env) eqn:Hopen.
  - assert (Hloop : Forall uniform_call
                      (trace_after (while_loop (iters env)) loop_entry)).
    { apply while_loop_Forall.
      - apply pass_uniform.
      - intros b. exact I.
      - repeat constructor. }
    destruct (run_opened_cases env Hopen) as [[_ Hrun] | [_ Hrun]]; rewrite Hrun; simpl.
    + exact Hloop.
    + apply Forall_app. split; [exact Hloop | repeat constructor].
  - rewrite (run_open_failure env Hopen). repeat constructor.
Qed.

(** ** Arrays of earlier passes *)

Section Store.
Context `{D : Drawing}.

(** A pass writes only the arrays it creates, and creates at most two. *)
Lemma loop_body_frame (it : Iter) (w : World) (r : ref) :
  r ≠ next_ref w → r ≠ S (next_ref w) →
  heap (world_after (loop_body it) w) !! r = heap w !! r.
Proof.
  intros Hr1 Hr2. unfold world_after, loop_body. run_prims.
  destruct (read_result it) as [[] [f|]]; simpl; heap_lookups; try reflexivity;
    destruct (detection it) as [lm|]; run_prims; heap_lookups;
    destruct (Z.land (key it) 255 =? 27); simpl; heap_lookups; reflexivity.
Qed.

Lemma loop_body_next_ref (it : Iter) (w : World) :
  (next_ref w ≤ next_ref (world_after (loop_body it) w) ≤ 2 + next_ref w)%nat.
Proof.
  unfold world_after, loop_body. run_prims.
  destruct (read_result it) as [[] [f|]]; simpl; try lia;
    destruct (detection it) as [lm|]; run_prims;
    destruct (Z.land (key it) 255 =? 27); simpl; lia.
Qed.

Lemma while_loop_frame (its : list Iter) (w : World) (r : ref) :
  (r < next_ref w)%nat →
  heap (world_after (while_loop its) w) !! r = heap w !! r
  ∧ (next_ref w ≤ next_ref (world_after (while_loop its) w))%nat.
Proof.
  revert w. induction its as [|it rest IH]; intros w Hr.
  - unfold world_after. simpl. split; [reflexivity | lia].
  - unfold world_after. destruct (cam_open it) eqn:Hopen.
    + rewrite (while_loop_open it rest w Hopen). simpl.
      set (w1 := with_events w [IsOpened true]).
      assert (Hkeep : heap (world_after (loop_body it) w1) !! r = heap w !! r).
      { rewrite (loop_body_frame it w1 r); [reflexivity | simpl; lia | simpl; lia]. }
      pose proof (loop_body_next_ref it w1) as Hnext. simpl in Hnext.
      destruct (valid_read it && is_escape (key it)); simpl.
      * split; [exact Hkeep | lia].
      * destruct (IH (world_after (loop_body it) w1)) as [Hheap Hmono]; [lia|].
        unfold world_after in Hheap at 1. unfold world_after in Hmono at 2.
        rewrite Hheap, Hkeep. split; [reflexivity | lia].
    + rewrite (while_loop_closed it rest w Hopen). simpl.
      split; [reflexivity | lia].
Qed.

End Store.

(** X8.  The passes of the loop never write to an array that existed
    before them: whatever the later reads, detections and keys are, an array
    created earlier (by an earlier pass, say) holds after them the pixels it
    held before.  In particular the frame of a pass and its converted copy
    stay as that pass left them, and the drawing of a later pass never lands
    on an earlier frame. *)
Theorem earlier_arrays_are_never_written `{Drawing}
    (its : list Iter) (w : World) (r : ref) :
  (r < next_ref w)%nat →
  heap (world_after (while_loop its) w) !! r = heap w !! r.
Proof.
  intros Hr. apply (while_loop_frame its w r Hr).
Qed.

Lemma earlier_arrays_are_never_written_witness :
  let w := world_after (@loop_body sample_drawing (good_pass None (-1))) loop_entry in
  heap (world_after
          (@while_loop sample_drawing
             [good_pass (Some sample_landmarks) (-1); good_pass None 27]) w) !! 0%nat
    = Some sample_frame.
Proof.
  intros w.
  rewrite (@earlier_arrays_are_never_written sample_drawing
             [good_pass (Some sample_landmarks) (-1); good_pass None 27] w 0%nat).
  - reflexivity.
  - vm_compute. lia.
Defined.

(** ** Reads and the loop condition *)

Section Guard.
Context `{D : Drawing}.

Lemma ends_open_cons (prev : bool) (e : event) (l : list event) :
  ends_open prev (e :: l) = ends_open (is_open_true e) l.
Proof.
  unfold ends_open. rewrite last_cons. destruct (last l); reflexivity.
Qed.

Lemma reads_guarded_app (prev : bool) (l1 l2 : list event) :
  reads_guarded prev (l1 ++ l2)
    = reads_guarded prev l1 && reads_guarded (ends_open prev l1) l2.
Proof.
  revert prev. induction l1 as [|e l1 IH]; intros prev; [reflexivity|].
  simpl. rewrite IH, ends_open_cons, andb_assoc. reflexivity.
Qed.

(** The calls of a pass, loop-head check included, are guarded whatever
    came before. *)
Lemma pass_guarded (prev : bool) (r : ref) (it : Iter) :
  reads_guarded prev (IsOpened true :: pass_events r it) = true.
Proof.
  unfold pass_events, valid_pass_events.
  destruct (read_result it) as [[] [f|]]; destruct (detection it); reflexivity.
Qed.

Lemma while_loop_guarded (prev : bool) (its : list Iter) (w : World) :
  reads_guarded prev (trace w) = true →
  reads_guarded prev (trace_after (while_loop its) w) = true.
Proof.
  revert w. induction its as [|it rest IH]; intros w Hw; [exact Hw|].
  unfold trace_after, world_after.
  destruct (cam_open it) eqn:Hopen.
  - rewrite (while_loop_open it rest w Hopen). simpl.
    assert (Hafter : reads_guarded prev
                       (trace (world_after (loop_body it)
                                 (with_events w [IsOpened true]))) = true).
    { fold (trace_after (loop_body it) (with_events w [IsOpened true])).
      rewrite trace_after_pass, reads_guarded_app, Hw, pass_guarded. reflexivity. }
    destruct (valid_read it && is_escape (key it)); simpl; [exact Hafter|].
    apply IH. exact Hafter.
  - rewrite (while_loop_closed it rest w Hopen). simpl.
    rewrite reads_guarded_app, Hw. reflexivity.
Qed.

Lemma run_guarded (env : Env) : reads_guarded false (trace (run env).2) = true.
Proof.
  destruct (open_ok env) eqn:Hopen.
  - pose proof (while_loop_guarded false (iters env) loop_entry eq_refl) as Hloop.
    destruct (run_opened_cases env Hopen) as [[_ Hrun] | [_ Hrun]]; rewrite Hrun; simpl.
    + exact Hloop.
    + rewrite reads_guarded_app.
      fold (trace_after (while_loop (iters env)) loop_entry).
      rewrite Hloop. reflexivity.
  - rewrite (run_open_failure env Hopen). reflexivity.
Qed.

(** What the check means for a read anywhere in the list. *)
Lemma reads_guarded_at (prev : bool) (pre post : list event) (e : event) :
  reads_guarded prev (pre ++ e :: post) = true →
  is_read e = true →
  ends_open prev pre = true.
Proof.
  intros Hg He. rewrite reads_guarded_app in Hg.
  apply andb_true_iff in Hg as [_ Hg]. simpl in Hg. rewrite He in Hg.
  apply andb_true_iff in Hg as [Hg _]. exact Hg.
Qed.

End Guard.

(** X9.  In any run, every read of the camera comes immediately after a
    check of the handle that answered true: the script never reads without
    having just evaluated the loop condition, so there is one such check for
    every read, retries after failed reads included. *)
Theorem every_read_follows_open_check `{Drawing}
    (env : Env) (pre post : list event) (success : bool) (frame : option (ref * Frame)) :
  trace (run env).2 = pre ++ CapRead success frame :: post →
  ∃ pre', pre = pre' ++ [IsOpened true].
Proof.
  intros Htrace.
  pose proof (run_guarded env) as Hg. rewrite Htrace in Hg.
  pose proof (reads_guarded_at false pre post _ Hg eq_refl) as Hend.
  unfold ends_open in Hend.
  destruct (last pre) as [e|] eqn:Hlast; [|discriminate].
  apply last_Some in Hlast as [pre' ->].
  exists pre'. destruct e as [| | |[]| | | | | | | | |]; try discriminate.
  reflexivity.
Qed.

Lemma every_read_follows_open_check_witness :
  ∃ pre', startup_events ++ [IsOpened true; CapRead false None; IsOpened true]
          = pre' ++ [IsOpened true].
Proof.
  apply (@every_read_follows_open_check sample_drawing
           {| open_ok := true; iters := [failed_pass; failed_pass] |}
           (startup_events ++ [IsOpened true; CapRead false None; IsOpened true])
           [] false None).
  reflexivity.
Defined.
